(** * GPT_RP.py: the single-character role-play engine

    A shallow embedding of [src/GPT_RP.py]: the [SoloEngine] class
    ([from_yaml], [__init__], [_detect_mood], [respond], [reset]), the
    module-level singleton [_engine] with its accessor [_load_engine], and
    the three routes.

    Python [str] values are Rocq strings holding the UTF-8 encoding of the
    text; substring search and the scanning of a format string only look
    for ASCII delimiters or whole keywords, which UTF-8 preserves.
    Exceptions are values of [exn]; a computation that may raise returns a
    [result].

    The routes are embedded twice: as functions, for requests served one
    after another ([serve], [run]), and as threads that take the steps of
    [_load_engine] one at a time, for requests that overlap ([exec]);
    [run_is_one_by_one] relates the two.  The loader is embedded on what
    opening and parsing the file gives ([SoloEngine.from_yaml]) and on the
    files themselves ([from_yaml_io]). *)

From Stdlib Require Import ZArith Lia Ascii String.
From stdpp Require Import base strings list gmap.

Set Warnings "-register-all".
Set Default Proof Using "Type".

Open Scope string_scope.

(** ** Exceptions and results *)

(** The exception classes this module can raise.  [LookupError] stands
    for its two subclasses [KeyError] and [IndexError]. *)
Inductive exn : Type :=
  | OSError | YAMLError | ValueError | LookupError | TypeError | AttributeError.

Inductive result (A : Type) : Type :=
  | Ok (a : A)
  | Raise (e : exn).
Arguments Ok {A} a.
Arguments Raise {A} e.

#[global] Instance result_ret : MRet result := λ A a, Ok a.
#[global] Instance result_bind : MBind result := λ A B k r,
  match r with
  | Ok a => k a
  | Raise e => Raise e
  end.

Definition raises {A} (r : result A) : Prop := ∃ e, r = Raise e.

(** ** Values read from the character file

    What [yaml.safe_load] can hand back.  [YOther] stands for the scalar
    nodes whose only observable property here is their truth value (floats,
    timestamps).  [YMap m] is a mapping all of whose keys are strings.
    [YMapX m] is a mapping that has other keys as well, [m] being its
    entries under string keys: every lookup of this program uses a [str]
    key, and no other key compares equal to one, so the other entries
    cannot be reached; they only make the mapping non-empty. *)
Inductive yaml : Type :=
  | YNull
  | YBool (b : bool)
  | YInt (z : Z)
  | YOther (truthy : bool)
  | YStr (s : string)
  | YList (l : list yaml)
  | YMap (m : gmap string yaml)
  | YMapX (m : gmap string yaml).

(** The entries of a mapping under string keys. *)
Definition entries (v : yaml) : option (gmap string yaml) :=
  match v with
  | YMap m | YMapX m => Some m
  | _ => None
  end.

(** Python's truth value, as used by [or]. *)
Definition truthy (v : yaml) : bool :=
  match v with
  | YNull => false
  | YBool b => b
  | YInt z => negb (z =? 0)%Z
  | YOther t => t
  | YStr s => negb (String.eqb s "")
  | YList l => match l with [] => false | _ => true end
  | YMap m => negb (bool_decide (m = ∅))
  | YMapX _ => true
  end.

Definition is_str (v : yaml) : bool :=
  match v with YStr _ => true | _ => false end.

(** ** Substring search: [x in s] on two [str] *)

Fixpoint contains (x s : string) : bool :=
  if String.prefix x s then true
  else match s with
       | EmptyString => false
       | String _ s' => contains x s'
       end.

(** [kw] occurs in [s]: [s] is some text, then [kw], then some text. *)
Definition occurs (kw s : string) : Prop :=
  ∃ pre post, s = pre +:+ kw +:+ post.

(** ASCII lower-casing, the restriction of [str.lower] to ASCII text. *)
Definition ascii_lower_char (c : ascii) : ascii :=
  let n := Ascii.nat_of_ascii c in
  if (65 <=? n)%nat && (n <=? 90)%nat then Ascii.ascii_of_nat (n + 32) else c.

Fixpoint ascii_lower (s : string) : string :=
  match s with
  | EmptyString => EmptyString
  | String c s' => String (ascii_lower_char c) (ascii_lower s')
  end.

Fixpoint is_ascii (s : string) : bool :=
  match s with
  | EmptyString => true
  | String c s' => (Ascii.nat_of_ascii c <? 128)%nat && is_ascii s'
  end.

(** ** The Python runtime

    The built-ins the module calls but does not define.  [pyobj] is the
    type of run-time objects; [py_data] views a loaded value (or a [str])
    as one.  The laws at the end are the facts about the built-ins that
    the statements below rely on. *)
Class PyRuntime := {
  pyobj : Type;
  py_data : yaml → pyobj;
  (** [str.lower] *)
  py_lower : string → string;
  (** [getattr(obj, attr)] *)
  py_getattr : pyobj → string → result pyobj;
  (** [obj[key]], [key] being the text between the brackets of a field name:
      an integer index when it is a decimal number, a [str] key otherwise *)
  py_getitem : pyobj → string → result pyobj;
  (** [repr(obj)], [str(obj)], [ascii(obj)] *)
  py_repr : pyobj → result pyobj;
  py_str : pyobj → result pyobj;
  py_ascii : pyobj → result pyobj;
  (** [format(obj, spec)] *)
  py_format : pyobj → string → result string;
  (** the first component of a field name read as a position: [None] for a
      keyword name; for the empty text or a decimal number, the exception
      that indexing the empty tuple of positional arguments gives *)
  py_positional : string → option exn;
  py_lower_ascii : ∀ s, is_ascii s = true → py_lower s = ascii_lower s;
  py_format_str : ∀ s, py_format (py_data (YStr s)) "" = Ok s;
  py_positional_name : py_positional "name" = None;
  py_positional_msg : py_positional "msg" = None;
}.

(** ** [str.format]: scanning the format string *)

(** A replacement field as the scanner delivers it.  [conversion] is the
    character after [!], the NUL character when there is none; a character
    outside ASCII is kept as the first byte of its encoding, which is
    enough to tell it from the conversions [r], [s] and [a]. *)
Record field := mkField {
  field_name : string;
  conversion : ascii;
  format_spec : string;
  format_spec_needs_expanding : bool;
}.

Inductive piece : Type :=
  | Lit (s : string)
  | Field (f : field).

Inductive mode : Type :=
  | MLit (lit : string)
  | MName (nm : string) (in_bracket : bool)
  | MConv (nm : string)
  | MConvRest (nm : string) (cv : ascii) (more : nat)
  | MSpec (nm : string) (cv : ascii) (spec : string) (count : nat) (exp : bool).

Definition snoc (s : string) (c : ascii) : string := s +:+ String c "".

(** UTF-8: the number of bytes that follow a first byte in the encoding of
    one character, and the bytes that can follow. *)
Definition utf8_more (c : ascii) : nat :=
  let n := nat_of_ascii c in
  if (n <? 192)%nat then 0
  else if (n <? 224)%nat then 1
  else if (n <? 240)%nat then 2
  else 3.

Definition utf8_continuation (c : ascii) : bool :=
  let n := nat_of_ascii c in (128 <=? n)%nat && (n <? 192)%nat.

Definition emit_lit (lit : string) (r : list piece * option exn)
  : list piece * option exn :=
  match lit with
  | "" => r
  | _ => (Lit lit :: r.1, r.2)
  end.

Definition emit (p : piece) (r : list piece * option exn)
  : list piece * option exn := (p :: r.1, r.2).

Definition syntax_error : list piece * option exn := ([], Some ValueError).

(** The pieces of a format string in order, up to the first syntax error
    if there is one.  One character is consumed per step. *)
Fixpoint scan (m : mode) (s : string) : list piece * option exn :=
  match s with
  | "" =>
      match m with
      | MLit lit => emit_lit lit ([], None)
      | _ => syntax_error
      end
  | String c s' =>
      match m with
      | MLit lit =>
          if Ascii.eqb c "{" then
            match s' with
            | "" => syntax_error
            | String c' s'' =>
                if Ascii.eqb c' "{" then scan (MLit (snoc lit "{")) s''
                else emit_lit lit (scan (MName "" false) s')
            end
          else if Ascii.eqb c "}" then
            match s' with
            | "" => syntax_error
            | String c' s'' =>
                if Ascii.eqb c' "}" then scan (MLit (snoc lit "}")) s''
                else syntax_error
            end
          else scan (MLit (snoc lit c)) s'
      | MName nm true =>
          scan (MName (snoc nm c) (negb (Ascii.eqb c "]"))) s'
      | MName nm false =>
          if Ascii.eqb c "{" then syntax_error
          else if Ascii.eqb c "[" then scan (MName (snoc nm c) true) s'
          else if Ascii.eqb c "}" then
            emit (Field (mkField nm "000" "" false)) (scan (MLit "") s')
          else if Ascii.eqb c ":" then scan (MSpec nm "000" "" 1 false) s'
          else if Ascii.eqb c "!" then scan (MConv nm) s'
          else scan (MName (snoc nm c) false) s'
      | MConv nm => scan (MConvRest nm c (utf8_more c)) s'
      | MConvRest nm cv (S more) =>
          if utf8_continuation c then scan (MConvRest nm cv more) s'
          else if Ascii.eqb c "}" then
            emit (Field (mkField nm cv "" false)) (scan (MLit "") s')
          else if Ascii.eqb c ":" then scan (MSpec nm cv "" 1 false) s'
          else syntax_error
      | MConvRest nm cv 0 =>
          if Ascii.eqb c "}" then
            emit (Field (mkField nm cv "" false)) (scan (MLit "") s')
          else if Ascii.eqb c ":" then scan (MSpec nm cv "" 1 false) s'
          else syntax_error
      | MSpec nm cv spec count exp =>
          if Ascii.eqb c "{" then scan (MSpec nm cv (snoc spec c) (S count) true) s'
          else if Ascii.eqb c "}" then
            match count with
            | 0 | 1 => emit (Field (mkField nm cv spec exp)) (scan (MLit "") s')
            | S n => scan (MSpec nm cv (snoc spec c) n exp) s'
            end
          else scan (MSpec nm cv (snoc spec c) count exp) s'
      end
  end.

Definition parse (tpl : string) : list piece * option exn := scan (MLit "") tpl.

(** ** [str.format]: resolving a field name *)

(** The part of a field name before the first [.] or [[], and the rest. *)
Fixpoint field_name_split (s : string) : string * string :=
  match s with
  | "" => ("", "")
  | String c s' =>
      if Ascii.eqb c "." || Ascii.eqb c "[" then ("", s)
      else let r := field_name_split s' in (String c r.1, r.2)
  end.

Inductive accessor : Type :=
  | Attr (a : string)
  | Item (k : string).

Inductive amode : Type :=
  | AStart
  | AAttr (a : string)
  | AItem (k : string).

Definition emit_accessor (a : accessor) (nm : string)
    (r : list accessor * option exn) : list accessor * option exn :=
  match nm with
  | "" => ([], Some ValueError)
  | _ => (a :: r.1, r.2)
  end.

(** The [.attr] and [[key]] steps after the first component, in order, up
    to the first syntax error (an empty name, a missing []], a character
    other than [.] or [[] after a []]). *)
Fixpoint accessors (m : amode) (s : string) : list accessor * option exn :=
  match s with
  | "" =>
      match m with
      | AStart => ([], None)
      | AAttr a => emit_accessor (Attr a) a ([], None)
      | AItem _ => ([], Some ValueError)
      end
  | String c s' =>
      match m with
      | AStart =>
          if Ascii.eqb c "." then accessors (AAttr "") s'
          else if Ascii.eqb c "[" then accessors (AItem "") s'
          else ([], Some ValueError)
      | AAttr a =>
          if Ascii.eqb c "." then emit_accessor (Attr a) a (accessors (AAttr "") s')
          else if Ascii.eqb c "[" then emit_accessor (Attr a) a (accessors (AItem "") s')
          else accessors (AAttr (snoc a c)) s'
      | AItem k =>
          if Ascii.eqb c "]" then emit_accessor (Item k) k (accessors AStart s')
          else accessors (AItem (snoc k c)) s'
      end
  end.

Section Format.
Context `{RT : PyRuntime}.

(** The keyword arguments of the one call site:
    [template.format(name=self.name, msg=user_msg)]. *)
Variable name_arg : yaml.
Variable msg_arg : string.

Definition kwargs_lookup (key : string) : result pyobj :=
  if String.eqb key "name" then Ok (py_data name_arg)
  else if String.eqb key "msg" then Ok (py_data (YStr msg_arg))
  else Raise LookupError.

Definition apply_accessor (obj : pyobj) (a : accessor) : result pyobj :=
  match a with
  | Attr n => py_getattr obj n
  | Item k => py_getitem obj k
  end.

Fixpoint apply_accessors (obj : pyobj) (l : list accessor) : result pyobj :=
  match l with
  | [] => Ok obj
  | a :: l' => obj' ← apply_accessor obj a; apply_accessors obj' l'
  end.

Definition get_field_object (fname : string) : result pyobj :=
  let (first, rest) := field_name_split fname in
  obj ← match py_positional first with
        | Some e => Raise e
        | None => kwargs_lookup first
        end;
  let (accs, err) := accessors AStart rest in
  obj ← apply_accessors obj accs;
  match err with
  | Some e => Raise e
  | None => Ok obj
  end.

Definition do_conversion (obj : pyobj) (cv : ascii) : result pyobj :=
  if Ascii.eqb cv "000" then Ok obj
  else if Ascii.eqb cv "r" then py_repr obj
  else if Ascii.eqb cv "s" then py_str obj
  else if Ascii.eqb cv "a" then py_ascii obj
  else Raise ValueError.

(** [expand] is the formatter for a nested format spec. *)
Definition output_markup (expand : string → result string) (f : field)
  : result string :=
  obj ← get_field_object (field_name f);
  obj ← do_conversion obj (conversion f);
  spec ← (if format_spec_needs_expanding f then expand (format_spec f)
          else Ok (format_spec f));
  py_format obj spec.

Definition output_piece (expand : string → result string) (p : piece)
  : result string :=
  match p with
  | Lit s => Ok s
  | Field f => output_markup expand f
  end.

Fixpoint do_markup (expand : string → result string) (ps : list piece)
    (err : option exn) : result string :=
  match ps with
  | [] => match err with Some e => Raise e | None => Ok "" end
  | p :: ps' =>
      out ← output_piece expand p;
      rest ← do_markup expand ps' err;
      Ok (out +:+ rest)
  end.

(** Formatting with a bound on the nesting of format specs. *)
Fixpoint build_string (recursion_depth : nat) (tpl : string) : result string :=
  match recursion_depth with
  | 0 => Raise ValueError
  | S d => let (ps, err) := parse tpl in do_markup (build_string d) ps err
  end.

(** [tpl.format(name=name_arg, msg=msg_arg)] *)
Definition str_format (tpl : string) : result string := build_string 2 tpl.

End Format.

(** ** Operations on loaded values *)

(** [key in data] for a [str] key. *)
Definition py_in (key : string) (data : yaml) : result bool :=
  match data with
  | YMap m | YMapX m => Ok (bool_decide (is_Some (m !! key)))
  | YList l =>
      Ok (existsb (λ v, match v with YStr s => String.eqb s key | _ => false end) l)
  | YStr s => Ok (contains key s)
  | _ => Raise TypeError
  end.

(** [data[key]] for a [str] key. *)
Definition subscript (data : yaml) (key : string) : result yaml :=
  match data with
  | YMap m | YMapX m =>
      match m !! key with Some v => Ok v | None => Raise LookupError end
  | _ => Raise TypeError
  end.

(** [d.get(key, dflt)]; only a mapping has the method.  [d.get(key)] is
    [d.get(key, None)]. *)
Definition dict_get (d : yaml) (key : string) (dflt : yaml) : result yaml :=
  match d with
  | YMap m | YMapX m => Ok (default dflt (m !! key))
  | _ => Raise AttributeError
  end.

(** ** The engine *)

Record Reply := mkReply {
  reply : string;
  mood : string;
  timestamp : string;
}.

(** What the process can see of its environment: [fs path] is the outcome
    of opening [path] and running [yaml.safe_load] on it ([OSError] when it
    cannot be read, [YAMLError] when it is not YAML); [reads] logs every
    such read, most recent first. *)
Record world := mkWorld {
  fs : string → result yaml;
  reads : list string;
}.

Module SoloEngine.

Record t := mk {
  char : yaml;
  name : yaml;
  templates : yaml;
}.

Definition __init__ (char_data : yaml) : result t :=
  basic_info ← subscript char_data "basic_info";
  nm ← subscript basic_info "name";
  speech_patterns ← subscript char_data "speech_patterns";
  Ok (mk char_data nm speech_patterns).

(** The check of one required key in [from_yaml]'s loop. *)
Definition require_key (data : yaml) (key : string) : result () :=
  present ← py_in key data;
  if negb present then Raise ValueError else Ok ().

Definition from_yaml (path : string) (w : world) : result t * world :=
  let w' := mkWorld (fs w) (path :: reads w) in
  (data ← fs w path;
   _ ← require_key data "basic_info";
   _ ← require_key data "speech_patterns";
   __init__ data,
   w').

Definition anger_keywords : list string := ["angry"; "mad"; "怒"; "生氣"].
Definition happy_keywords : list string := ["happy"; "love"; "開心"; "喜"].

Section Methods.
Context `{RT : PyRuntime}.

Definition _detect_mood (msg : string) : string :=
  let low := py_lower msg in
  if existsb (λ x, contains x low) anger_keywords then "angry"
  else if existsb (λ x, contains x low) happy_keywords then "happy"
  else "neutral".

(** Line 64: [self.templates.get(mood) or
    self.templates.get("neutral", "{msg}")]. *)
Definition select_template (self : t) (mood : string) : result yaml :=
  first ← dict_get (templates self) mood YNull;
  if truthy first then Ok first
  else dict_get (templates self) "neutral" (YStr "{msg}").

(** Line 65: [template.format(name=self.name, msg=user_msg)]; only a
    [str] has the method. *)
Definition format_reply (self : t) (template : yaml) (user_msg : string)
  : result string :=
  match template with
  | YStr tpl => str_format (name self) user_msg tpl
  | _ => Raise AttributeError
  end.

(** [now] is the clock reading [datetime.now(timezone.utc).isoformat()]. *)
Definition respond (self : t) (user_msg : string) (now : string)
  : result Reply :=
  let mood := _detect_mood user_msg in
  template ← select_template self mood;
  reply_text ← format_reply self template user_msg;
  Ok (mkReply reply_text mood now).

Definition reset (self : t) : result () * t := (Ok (), self).

End Methods.

End SoloEngine.

(** ** The FastAPI layer *)

(** The module-level variables. *)
Record globals := mkGlobals {
  CHAR_YAML_PATH : string;
  _engine : option SoloEngine.t;
}.

Record MessageIn := mkMessageIn {
  user_id : option string;
  message : string;
}.

Definition _load_engine (g : globals) (w : world)
  : result SoloEngine.t * globals * world :=
  match _engine g with
  | None =>
      let (r, w') := SoloEngine.from_yaml (CHAR_YAML_PATH g) w in
      match r with
      | Ok eng => (Ok eng, mkGlobals (CHAR_YAML_PATH g) (Some eng), w')
      | Raise e => (Raise e, g, w')
      end
  | Some eng => (Ok eng, g, w)
  end.

Inductive request : Type :=
  | POST_respond (payload : MessageIn)
  | POST_reset
  | GET_health.

Inductive response : Type :=
  | ReplyOut (r : Reply)
  | NoContent
  | Status (status : string).

Section Routes.
Context `{RT : PyRuntime}.

Definition respond (payload : MessageIn) (now : string) (g : globals) (w : world)
  : result response * globals * world :=
  let '(r, g', w') := _load_engine g w in
  (eng ← r; out ← SoloEngine.respond eng (message payload) now; Ok (ReplyOut out),
   g', w').

Definition reset (g : globals) (w : world)
  : result response * globals * world :=
  let '(r, g', w') := _load_engine g w in
  match r with
  | Ok eng =>
      let (r', eng') := SoloEngine.reset eng in
      (_ ← r'; Ok NoContent, mkGlobals (CHAR_YAML_PATH g') (Some eng'), w')
  | Raise e => (Raise e, g', w')
  end.

Definition health : result response := Ok (Status "ok").

(** One request served at clock reading [now], from its first line to its
    last with no other request in between. *)
Definition serve (req : request) (now : string) (g : globals) (w : world)
  : result response * globals * world :=
  match req with
  | POST_respond payload => respond payload now g w
  | POST_reset => reset g w
  | GET_health => (health, g, w)
  end.

(** An event of a run: the files as they are when the request arrives,
    the clock reading, the request. *)
Record event := mkEvent {
  ev_fs : string → result yaml;
  ev_now : string;
  ev_req : request;
}.

(** The process serving requests that do not overlap, each one finished
    before the next begins, while the files may change between them;
    returns the outcomes and the final state.  Requests that overlap are
    the subject of the section on threads below. *)
Fixpoint run (evs : list event) (g : globals) (reads_so_far : list string)
  : list (result response) * globals * list string :=
  match evs with
  | [] => ([], g, reads_so_far)
  | ev :: evs' =>
      let '(r, g', w') := serve (ev_req ev) (ev_now ev) g
                            (mkWorld (ev_fs ev) reads_so_far) in
      let '(rs, g'', log) := run evs' g' (reads w') in
      (r :: rs, g'', log)
  end.

End Routes.

(** ** The loader and the files

    Lines 42 and 43 of [from_yaml] spelt out, on the whole state that code
    of the module can reach: the module-level variables, the files, the
    files that are open.  [open] gives a handle; [yaml.safe_load] reads
    the text behind it; the [with] statement closes the handle when its
    body returns and when it raises.  The parser [safe_load] belongs to
    the YAML library and is a parameter. *)
Record system := mkSystem {
  sys_globals : globals;
  sys_files : string → option string;
  sys_open : list string;
  sys_reads : list string;
}.

(** [sys_files] holds the text of the files that can be read, [sys_open]
    the handles that are open, [sys_reads] the paths passed to [open],
    latest first. *)
Definition io (A : Type) : Type := system → result A * system.

Definition io_bind {A B} (m : io A) (k : A → io B) : io B :=
  λ s, match m s with
       | (Ok a, s') => k a s'
       | (Raise e, s') => (Raise e, s')
       end.

Definition io_pure {A} (r : result A) : io A := λ s, (r, s).

Fixpoint remove_first (h : string) (l : list string) : list string :=
  match l with
  | [] => []
  | x :: l' => if String.eqb x h then l' else x :: remove_first h l'
  end.

(** [open(path, "r", encoding="utf-8")]: the handle of a file is its
    path; the attempt is logged, as in [world]. *)
Definition py_open (path : string) : io string :=
  λ s, match sys_files s path with
       | None =>
           (Raise OSError,
            mkSystem (sys_globals s) (sys_files s) (sys_open s) (path :: sys_reads s))
       | Some _ =>
           (Ok path,
            mkSystem (sys_globals s) (sys_files s) (path :: sys_open s)
              (path :: sys_reads s))
       end.

Definition py_close (h : string) : io () :=
  λ s, (Ok (),
        mkSystem (sys_globals s) (sys_files s) (remove_first h (sys_open s))
          (sys_reads s)).

(** [with f: body]: the handle is closed on the way out, whether [body]
    returned or raised. *)
Definition with_file {A} (h : string) (body : io A) : io A :=
  λ s, let (r, s') := body s in (r, (py_close h s').2).

Section Loader.
Variable safe_load : string → result yaml.

(** [yaml.safe_load(f)] *)
Definition safe_load_file (h : string) : io yaml :=
  λ s, (match sys_files s h with
        | Some text => safe_load text
        | None => Raise OSError
        end, s).

Definition from_yaml_io (path : string) : io SoloEngine.t :=
  io_bind (io_bind (py_open path) (λ f, with_file f (safe_load_file f)))
    (λ data,
       io_pure (_ ← SoloEngine.require_key data "basic_info";
                _ ← SoloEngine.require_key data "speech_patterns";
                SoloEngine.__init__ data)).

(** What opening and parsing a file gives, as [world] has it. *)
Definition fs_of (files : string → option string) (path : string) : result yaml :=
  match files path with
  | Some text => safe_load text
  | None => Raise OSError
  end.

End Loader.

(** ** Requests that overlap

    The routes are plain [def] functions, which the server runs in a pool
    of threads, and [_load_engine] takes no lock.  A request is served in
    steps, and steps of different requests may alternate.  The steps are
    the reads and writes of the shared state: line 86 reads [_engine];
    line 87 calls [from_yaml], which reads the file, and then stores the
    engine; line 88 reads [_engine] again and hands it to the route. *)
Inductive pc : Type :=
  | AtCheck
  | AtLoad
  | AtStore (eng : SoloEngine.t)
  | AtReturn
  | Finished (r : result response).

Record thread := mkThread {
  th_req : request;
  th_now : string;
  th_pc : pc;
}.

Record process := mkProcess {
  pr_globals : globals;
  pr_reads : list string;
  pr_threads : list thread;
}.

Section Threads.
Context `{RT : PyRuntime}.

Definition at_pc (t : thread) (p : pc) : thread :=
  mkThread (th_req t) (th_now t) p.

(** What a route does with the engine that [_load_engine] returned;
    [None] has neither [respond] nor [reset]. *)
Definition route_body (t : thread) (g : globals) : globals * pc :=
  match _engine g with
  | None => (g, Finished (Raise AttributeError))
  | Some eng =>
      match th_req t with
      | POST_respond payload =>
          (g, Finished (out ← SoloEngine.respond eng (message payload) (th_now t);
                        Ok (ReplyOut out)))
      | POST_reset =>
          let (r, eng') := SoloEngine.reset eng in
          (mkGlobals (CHAR_YAML_PATH g) (Some eng'), Finished (_ ← r; Ok NoContent))
      | GET_health => (g, Finished health)
      end
  end.

(** One step of one thread, the files being [files] at that moment. *)
Definition step_thread (files : string → result yaml) (g : globals)
    (log : list string) (t : thread) : globals * list string * thread :=
  match th_pc t with
  | AtCheck =>
      match th_req t with
      | GET_health => (g, log, at_pc t (Finished health))
      | _ =>
          match _engine g with
          | None => (g, log, at_pc t AtLoad)
          | Some _ => (g, log, at_pc t AtReturn)
          end
      end
  | AtLoad =>
      let (r, w) := SoloEngine.from_yaml (CHAR_YAML_PATH g) (mkWorld files log) in
      match r with
      | Ok eng => (g, reads w, at_pc t (AtStore eng))
      | Raise e => (g, reads w, at_pc t (Finished (Raise e)))
      end
  | AtStore eng => (mkGlobals (CHAR_YAML_PATH g) (Some eng), log, at_pc t AtReturn)
  | AtReturn => let (g', p) := route_body t g in (g', log, at_pc t p)
  | Finished _ => (g, log, t)
  end.

(** A thread taking [n] steps with no other thread in between. *)
Fixpoint thread_alone (n : nat) (files : string → result yaml) (g : globals)
    (log : list string) (t : thread) : globals * list string * thread :=
  match n with
  | 0 => (g, log, t)
  | S n' =>
      let '(g', log', t') := step_thread files g log t in
      thread_alone n' files g' log' t'
  end.

(** The process taking one step: thread [i] moves, the files being
    [files]. *)
Definition exec_step (p : process) (move : nat * (string → result yaml))
  : process :=
  match pr_threads p !! move.1 with
  | None => p
  | Some t =>
      let '(g, log, t') := step_thread move.2 (pr_globals p) (pr_reads p) t in
      mkProcess g log (<[move.1 := t']> (pr_threads p))
  end.

Definition exec (schedule : list (nat * (string → result yaml))) (p : process)
  : process := foldl exec_step p schedule.

End Threads.

(** The thread of a request that has just arrived, and of one that is
    done. *)
Definition thread_of (ev : event) : thread :=
  mkThread (ev_req ev) (ev_now ev) AtCheck.

Definition finished_thread (ev : event) (r : result response) : thread :=
  mkThread (ev_req ev) (ev_now ev) (Finished r).

(** The schedule that serves the requests one after another: the thread of
    each takes its four steps before the next one moves; [k] is the index
    of the first of these threads in the pool. *)
Fixpoint one_by_one (k : nat) (evs : list event)
  : list (nat * (string → result yaml)) :=
  match evs with
  | [] => []
  | ev :: evs' => (replicate 4 (k, ev_fs ev) ++ one_by_one (S k) evs')%list
  end.

(** A thread that may still read the file. *)
Definition may_read (t : thread) : nat :=
  match th_pc t with
  | AtCheck | AtLoad => 1
  | _ => 0
  end.

Definition may_read_count (ts : list thread) : nat :=
  foldr (λ t n, may_read t + n)%nat 0%nat ts.

(** What holds between a process and the process it becomes, whatever
    the schedule. *)
Definition pool_invariant (p p' : process) : Prop :=
  CHAR_YAML_PATH (pr_globals p') = CHAR_YAML_PATH (pr_globals p)
  ∧ (is_Some (_engine (pr_globals p)) → is_Some (_engine (pr_globals p')))
  ∧ Forall2 (λ t t', th_req t' = th_req t ∧ th_now t' = th_now t
                     ∧ ∀ r, th_pc t = Finished r → t' = t)
      (pr_threads p) (pr_threads p')
  ∧ ∃ new : list string,
      pr_reads p' = (new ++ pr_reads p)%list
      ∧ Forall (λ x, x = CHAR_YAML_PATH (pr_globals p)) new
      ∧ (length new + may_read_count (pr_threads p')
         ≤ may_read_count (pr_threads p))%nat.

(** ** A small runtime for running the model

    It agrees with CPython on ASCII text for what it covers: lower-casing,
    indexing a [str], a list or a mapping by its string keys, [!s] on a
    [str], and formatting
    a [str] with the empty spec.  It has no attributes and no other
    conversions or format specs: there it raises. *)
Module Small.

Fixpoint all_digits (s : string) : bool :=
  match s with
  | "" => true
  | String c s' =>
      let n := nat_of_ascii c in (48 <=? n)%nat && (n <=? 57)%nat && all_digits s'
  end.

Definition index_of (s : string) : nat :=
  (fix go (acc : nat) (s : string) : nat :=
     match s with
     | "" => acc
     | String c s' => go (10 * acc + (nat_of_ascii c - 48))%nat s'
     end) 0%nat s.

Definition getitem (obj : yaml) (key : string) : result yaml :=
  let numeric := negb (String.eqb key "") && all_digits key in
  match obj with
  | YStr s =>
      if numeric then
        match String.get (index_of key) s with
        | Some c => Ok (YStr (String c ""))
        | None => Raise LookupError
        end
      else Raise TypeError
  | YList l =>
      if numeric then
        match l !! index_of key with
        | Some v => Ok v
        | None => Raise LookupError
        end
      else Raise TypeError
  | YMap m | YMapX m =>
      if numeric then Raise LookupError
      else match m !! key with Some v => Ok v | None => Raise LookupError end
  | _ => Raise TypeError
  end.

Definition to_str (obj : yaml) : result yaml :=
  match obj with
  | YStr s => Ok (YStr s)
  | _ => Raise TypeError
  end.

Definition format (obj : yaml) (spec : string) : result string :=
  match obj, spec with
  | YStr s, "" => Ok s
  | _, _ => Raise ValueError
  end.

Definition positional (first : string) : option exn :=
  if all_digits first then Some LookupError else None.

#[export] Instance runtime : PyRuntime := {|
  pyobj := yaml;
  py_data := id;
  py_lower := ascii_lower;
  py_getattr := λ _ _, Raise AttributeError;
  py_getitem := getitem;
  py_repr := λ _, Raise TypeError;
  py_str := to_str;
  py_ascii := λ _, Raise TypeError;
  py_format := format;
  py_positional := positional;
  py_lower_ascii := λ _ _, eq_refl;
  py_format_str := λ _, eq_refl;
  py_positional_name := eq_refl;
  py_positional_msg := eq_refl;
|}.

End Small.

(** ** Vocabulary of the statements *)

(** The two placeholders in their plain form, [{name}] and [{msg}]. *)
Definition name_placeholder : field := mkField "name" "000" "" false.
Definition msg_placeholder : field := mkField "msg" "000" "" false.

Definition field_eqb (f g : field) : bool :=
  String.eqb (field_name f) (field_name g)
  && Ascii.eqb (conversion f) (conversion g)
  && String.eqb (format_spec f) (format_spec g)
  && Bool.eqb (format_spec_needs_expanding f) (format_spec_needs_expanding g).

(** A piece that is literal text or one of the two plain placeholders. *)
Definition plain_piece (p : piece) : bool :=
  match p with
  | Lit _ => true
  | Field f => field_eqb f name_placeholder || field_eqb f msg_placeholder
  end.

(** A template made of literal text and the two plain placeholders only. *)
Definition plain_template (tpl : string) : bool :=
  forallb plain_piece (parse tpl).1 && bool_decide ((parse tpl).2 = None).

Definition concat_str (l : list string) : string := foldr String.append "" l.

(** Substitution: each [{name}] replaced by [nm], each [{msg}] by [msg]. *)
Definition substitute_piece (nm msg : string) (p : piece) : string :=
  match p with
  | Lit s => s
  | Field f => if String.eqb (field_name f) "name" then nm else msg
  end.

Definition substitute (nm msg : string) (ps : list piece) : string :=
  concat_str (map (substitute_piece nm msg) ps).

(** The argument a field refers to: its name up to the first [.] or [[]. *)
Definition first_component (f : field) : string :=
  (field_name_split (field_name f)).1.

Definition recognized (arg : string) : bool :=
  String.eqb arg "name" || String.eqb arg "msg".

(** The template refers to an argument other than [name] and [msg], in one
    of its fields or in a field nested in a format spec, [depth] being the
    nesting that [str.format] expands. *)
Fixpoint references_unknown (depth : nat) (tpl : string) : bool :=
  match depth with
  | 0 => false
  | S d =>
      existsb (λ p,
        match p with
        | Lit _ => false
        | Field f =>
            negb (recognized (first_component f))
            || (format_spec_needs_expanding f
                && references_unknown d (format_spec f))
        end) (parse tpl).1
  end.

(** The template has the plain message placeholder [{msg}] among its
    fields. *)
Definition has_msg_placeholder (tpl : string) : Prop :=
  Field msg_placeholder ∈ (parse tpl).1.

(** No field of the template, nested ones included, refers to [msg]. *)
Fixpoint msg_free (depth : nat) (tpl : string) : bool :=
  match depth with
  | 0 => true
  | S d =>
      forallb (λ p,
        match p with
        | Lit _ => true
        | Field f =>
            negb (String.eqb (first_component f) "msg")
            && (negb (format_spec_needs_expanding f)
                || msg_free d (format_spec f))
        end) (parse tpl).1
  end.

(** The template refers to the message through the plain [{msg}] only. *)
Definition msg_only_plain (tpl : string) : bool :=
  forallb (λ p,
    match p with
    | Lit _ => true
    | Field f =>
        field_eqb f msg_placeholder
        || (negb (String.eqb (first_component f) "msg")
            && (negb (format_spec_needs_expanding f)
                || msg_free 1 (format_spec f)))
    end) (parse tpl).1.

(** The outcome of formatting a template, the message left open: an
    exception, or the reply as a list of texts and holes for the message. *)
Definition fill (skeleton : result (list (option string))) (msg : string)
  : result string :=
  match skeleton with
  | Ok parts => Ok (concat_str (map (default msg) parts))
  | Raise e => Raise e
  end.

(** A part of the reply put in front of the parts that follow. *)
Definition cons_part (o : result (option string))
    (skeleton : result (list (option string))) : result (list (option string)) :=
  part ← o; parts ← skeleton; Ok (part :: parts).

(** The required keys of a character file: a mapping with "basic_info",
    itself a mapping with "name", and with "speech_patterns". *)
Definition has_required_keys (data : yaml) : Prop :=
  ∃ m info b, entries data = Some m
              ∧ m !! "basic_info" = Some info
              ∧ entries info = Some b
              ∧ is_Some (b !! "name")
              ∧ is_Some (m !! "speech_patterns").

(** ** The renderer in the specification's words

    Section 4.3 of the specification: look up the mood's template; if it is
    absent, the "neutral" one; if that is absent too, the literal pattern
    "{message}". *)
Definition select_template_spec (m : gmap string yaml) (mood : string) : yaml :=
  match m !! mood with
  | Some t => t
  | None =>
      match m !! "neutral" with
      | Some t => t
      | None => YStr "{message}"
      end
  end.

(** ** Sample profiles *)

(** The profile of the specification's scenarios. *)
Definition damian_file : yaml :=
  YMap {[ "basic_info" := YMap {[ "name" := YStr "Damian" ]};
          "speech_patterns" :=
            YMap {[ "neutral" := YStr "{name} says: {msg}";
                    "angry" := YStr "{name} snaps: {msg}" ]} ]}.

Definition damian_templates : gmap string yaml :=
  {[ "neutral" := YStr "{name} says: {msg}";
     "angry" := YStr "{name} snaps: {msg}" ]}.

Definition damian : SoloEngine.t :=
  SoloEngine.mk damian_file (YStr "Damian") (YMap damian_templates).

(** Another character. *)
Definition dusk_file : yaml :=
  YMap {[ "basic_info" := YMap {[ "name" := YStr "Dusk" ]};
          "speech_patterns" := YMap {[ "neutral" := YStr "{name} nods: {msg}" ]} ]}.

Definition dusk : SoloEngine.t :=
  SoloEngine.mk dusk_file (YStr "Dusk")
    (YMap {[ "neutral" := YStr "{name} nods: {msg}" ]}).

(** A profile with a name and no template at all. *)
Definition bare : SoloEngine.t :=
  SoloEngine.mk YNull (YStr "Damian") (YMap ∅).

(** A profile whose only template refers to an argument that the format
    call does not pass. *)
Definition moody : SoloEngine.t :=
  SoloEngine.mk YNull (YStr "Damian")
    (YMap {[ "neutral" := YStr "{name} ({mood}): {msg}" ]}).

(** A profile whose only template indexes the message. *)
Definition initial : SoloEngine.t :=
  SoloEngine.mk YNull (YStr "Damian") (YMap {[ "neutral" := YStr "{msg[0]}" ]}).

(** A profile whose "angry" template is empty. *)
Definition sullen_templates : gmap string yaml :=
  {[ "angry" := YStr ""; "neutral" := YStr "{name} says: {msg}" ]}.

Definition sullen : SoloEngine.t :=
  SoloEngine.mk YNull (YStr "Damian") (YMap sullen_templates).

(** ** Writing templates

    Literal text as a template writes it: every brace doubled. *)
Fixpoint escape (s : string) : string :=
  match s with
  | "" => ""
  | String c s' =>
      if Ascii.eqb c "{" || Ascii.eqb c "}" then String c (String c (escape s'))
      else String c (escape s')
  end.

(** The text of a template given by its pieces: literal text escaped, a
    field as its name between braces. *)
Definition piece_text (p : piece) : string :=
  match p with
  | Lit s => escape s
  | Field f => "{" +:+ field_name f +:+ "}"
  end.

Definition template_text (ps : list piece) : string :=
  concat_str (map piece_text ps).

(** A loaded value all of whose templates are templates of text and the
    two plain placeholders. *)
Definition plain_templates (m : gmap string yaml) : Prop :=
  ∀ k v, m !! k = Some v → ∃ t, v = YStr t ∧ plain_template t = true.

(** * Properties *)

(** ** Substring search *)

Lemma prefix_spec (x s : string) :
  String.prefix x s = true ↔ ∃ post, s = x +:+ post.
Proof.
  revert s; induction x as [|a x IH]; intros s.
  - split; [intros _; by exists s | intros _; by destruct s].
  - destruct s as [|b s]; simpl.
    + split; [done | intros [post H]; discriminate H].
    + destruct (Ascii.ascii_dec a b) as [->|Hne].
      * rewrite IH. split; intros [post H]; exists post; [by rewrite H | by injection H].
      * split; [done | intros [post H]; injection H as H1 _; by destruct Hne].
Qed.

Lemma contains_spec (x s : string) : contains x s = true ↔ occurs x s.
Proof.
  unfold occurs. induction s as [|c s IH]; cbn [contains].
  - destruct (String.prefix x "") eqn:Hp.
    + apply prefix_spec in Hp as [post Hp]. split; [intros _|done].
      exists "", post. done.
    + split; [done|]. intros ([|? pre] & post & H); simpl in H; [|done].
      apply not_true_iff_false in Hp. destruct Hp. apply prefix_spec. by exists post.
  - destruct (String.prefix x (String c s)) eqn:Hp.
    + apply prefix_spec in Hp as [post Hp]. split; [intros _|done].
      exists "", post. done.
    + rewrite IH. split.
      * intros (pre & post & ->). by exists (String c pre), post.
      * intros ([|c' pre] & post & H); simpl in H.
        -- apply not_true_iff_false in Hp. destruct Hp. apply prefix_spec. by exists post.
        -- injection H as _ ->. by exists pre, post.
Qed.

Lemma any_contains_spec (kws : list string) (s : string) :
  existsb (λ x, contains x s) kws = true ↔ ∃ kw, kw ∈ kws ∧ occurs kw s.
Proof.
  rewrite existsb_exists. split; intros (kw & Hin & H); exists kw.
  - split; [by apply list_elem_of_In | by apply contains_spec].
  - split; [by apply list_elem_of_In | by apply contains_spec].
Qed.

(** ** The mood classifier *)

(** C1.  The mood of a message is decided by which keywords occur in its
    lower-cased text: "angry" when one of "angry", "mad", "怒", "生氣"
    occurs; otherwise "happy" when one of "happy", "love", "開心", "喜"
    occurs; otherwise "neutral".  A message with keywords of both lists is
    "angry".  On ASCII text the lower-casing is the ASCII one. *)
Theorem detect_mood_classifies `{RT : PyRuntime} (msg : string) :
  let low := py_lower msg in
  let anger := ∃ kw, kw ∈ ["angry"; "mad"; "怒"; "生氣"] ∧ occurs kw low in
  let happiness := ∃ kw, kw ∈ ["happy"; "love"; "開心"; "喜"] ∧ occurs kw low in
  (anger → SoloEngine._detect_mood msg = "angry") ∧
  (¬ anger → happiness → SoloEngine._detect_mood msg = "happy") ∧
  (¬ anger → ¬ happiness → SoloEngine._detect_mood msg = "neutral") ∧
  (anger → happiness → SoloEngine._detect_mood msg = "angry") ∧
  (is_ascii msg = true → low = ascii_lower msg).
Proof.
  intros low anger happiness.
  pose proof (any_contains_spec SoloEngine.anger_keywords low) as Ha.
  pose proof (any_contains_spec SoloEngine.happy_keywords low) as Hh.
  unfold SoloEngine._detect_mood. fold low.
  destruct (existsb _ SoloEngine.anger_keywords) eqn:Ea;
    destruct (existsb _ SoloEngine.happy_keywords) eqn:Eh;
    repeat split; try done; intros;
    try (exfalso; by (intuition congruence));
    try (by apply py_lower_ascii).
  all: try (assert (anger) by (by apply Ha); done).
  all: try (assert (true = false) by (by apply Ha || by apply Hh); done).
Qed.

(** ** Formatting *)

Lemma field_eqb_eq (f g : field) : field_eqb f g = true → f = g.
Proof.
  destruct f, g; unfold field_eqb; simpl.
  rewrite !andb_true_iff. intros [[[H1 H2] H3] H4].
  apply String.eqb_eq in H1, H3. apply Ascii.eqb_eq in H2.
  apply Bool.eqb_prop in H4. by subst.
Qed.

Lemma append_cons (x : ascii) (a b : string) :
  String x a +:+ b = String x (a +:+ b).
Proof. reflexivity. Qed.

Lemma append_assoc (a b c : string) : (a +:+ b) +:+ c = a +:+ b +:+ c.
Proof.
  induction a as [|x a IH]; [done|]. by rewrite !append_cons, IH.
Qed.

Lemma occurs_concat (o : string) (outs : list string) :
  o ∈ outs → occurs o (concat_str outs).
Proof.
  induction 1 as [o outs | o o' outs _ (pre & post & IH)].
  - by exists "", (concat_str outs).
  - exists (o' +:+ pre), post. cbn [concat_str foldr]. fold (concat_str outs).
    by rewrite IH, append_assoc.
Qed.

Section FormatFacts.
Context `{RT : PyRuntime}.
Variable name_arg : yaml.
Variable msg_arg : string.
Variable expand : string → result string.

Lemma output_msg_placeholder :
  output_markup name_arg msg_arg expand msg_placeholder = Ok msg_arg.
Proof.
  unfold output_markup, get_field_object; simpl.
  rewrite py_positional_msg; simpl. apply py_format_str.
Qed.

Lemma output_name_placeholder (nm : string) :
  name_arg = YStr nm →
  output_markup name_arg msg_arg expand name_placeholder = Ok nm.
Proof.
  intros ->. unfold output_markup, get_field_object; simpl.
  rewrite py_positional_name; simpl. apply py_format_str.
Qed.

Lemma do_markup_ok (ps : list piece) (err : option exn) (r : string) :
  do_markup name_arg msg_arg expand ps err = Ok r →
  err = None
  ∧ ∃ outs, Forall2 (λ p o, output_piece name_arg msg_arg expand p = Ok o) ps outs
            ∧ r = concat_str outs.
Proof.
  revert r; induction ps as [|p ps IH]; intros r; simpl.
  - destruct err; [done|]. intros [= <-]. split; [done|]. by exists [].
  - destruct (output_piece _ _ _ p) as [o|] eqn:Ho; [simpl|done].
    destruct (do_markup _ _ _ ps err) as [rest|] eqn:Hr; [simpl|done].
    intros [= <-]. destruct (IH rest eq_refl) as (-> & outs & Hall & ->).
    split; [done|]. exists (o :: outs). split; [by constructor | done].
Qed.

Lemma do_markup_plain (nm : string) (ps : list piece) :
  name_arg = YStr nm →
  forallb plain_piece ps = true →
  do_markup name_arg msg_arg expand ps None = Ok (substitute nm msg_arg ps).
Proof.
  intros Hn. induction ps as [|p ps IH]; simpl; [done|].
  rewrite andb_true_iff. intros [Hp Hps]. rewrite (IH Hps).
  destruct p as [s|f]; simpl; [done|].
  simpl in Hp. apply orb_true_iff in Hp as [Hf|Hf]; apply field_eqb_eq in Hf; subst f.
  - by rewrite (output_name_placeholder nm Hn).
  - by rewrite output_msg_placeholder.
Qed.

End FormatFacts.

Lemma raises_bind {A B} (r : result A) (k : A → result B) :
  raises r → raises (r ≫= k).
Proof. intros [e ->]. by exists e. Qed.

Lemma raises_bind_k {A B} (r : result A) (k : A → result B) :
  (∀ a, raises (k a)) → raises (r ≫= k).
Proof. intros Hk. destruct r as [a|e]; [apply Hk | by exists e]. Qed.

Section UnknownArgument.
Context `{RT : PyRuntime}.
Variable name_arg : yaml.
Variable msg_arg : string.

Lemma get_field_object_unknown (f : field) :
  recognized (first_component f) = false →
  raises (get_field_object name_arg msg_arg (field_name f)).
Proof.
  unfold recognized, first_component, get_field_object.
  destruct (field_name_split (field_name f)) as [first rest]; simpl.
  intros [H1 H2]%orb_false_iff.
  apply raises_bind. destruct (py_positional first) as [e|]; [by exists e|].
  unfold kwargs_lookup. rewrite H1, H2. by exists LookupError.
Qed.

Lemma do_markup_unknown (expand : string → result string)
    (P : piece → bool) (ps : list piece) (err : option exn) :
  (∀ p, P p = true → raises (output_piece name_arg msg_arg expand p)) →
  existsb P ps = true →
  raises (do_markup name_arg msg_arg expand ps err).
Proof.
  intros HP. induction ps as [|p ps IH]; simpl; [done|].
  intros [Hp|Hps]%orb_true_iff.
  - by apply raises_bind, HP.
  - apply raises_bind_k; intros o. by apply raises_bind, IH.
Qed.

Lemma references_unknown_raises (depth : nat) (tpl : string) :
  references_unknown depth tpl = true →
  raises (build_string name_arg msg_arg depth tpl).
Proof.
  revert tpl; induction depth as [|d IH]; intros tpl; simpl; [done|].
  destruct (parse tpl) as [ps err]; simpl.
  apply do_markup_unknown. intros [s|f]; [done|]. simpl.
  intros [H|[H1 H2]%andb_true_iff]%orb_true_iff.
  - apply raises_bind, get_field_object_unknown. by apply negb_true_iff.
  - unfold output_markup. rewrite H1.
    do 2 (apply raises_bind_k; intros ?). by apply raises_bind, IH.
Qed.

End UnknownArgument.

Section MessageIndependence.
Context `{RT : PyRuntime}.
Variable name_arg : yaml.

Lemma get_field_object_msg_free (f : field) (m1 m2 : string) :
  String.eqb (first_component f) "msg" = false →
  get_field_object name_arg m1 (field_name f)
  = get_field_object name_arg m2 (field_name f).
Proof.
  unfold first_component, get_field_object.
  destruct (field_name_split (field_name f)) as [first rest]; simpl.
  intros H. unfold kwargs_lookup. by rewrite H.
Qed.

Lemma output_markup_msg_free (e1 e2 : string → result string) (f : field)
    (m1 m2 : string) :
  String.eqb (first_component f) "msg" = false →
  (format_spec_needs_expanding f = true → e1 (format_spec f) = e2 (format_spec f)) →
  output_markup name_arg m1 e1 f = output_markup name_arg m2 e2 f.
Proof.
  intros Hf He. unfold output_markup.
  rewrite (get_field_object_msg_free f m1 m2 Hf).
  destruct (format_spec_needs_expanding f); [by rewrite He | done].
Qed.

Lemma build_string_msg_free (depth : nat) (tpl m1 m2 : string) :
  msg_free depth tpl = true →
  build_string name_arg m1 depth tpl = build_string name_arg m2 depth tpl.
Proof.
  revert tpl; induction depth as [|d IH]; intros tpl; simpl; [done|].
  destruct (parse tpl) as [ps err]; simpl.
  induction ps as [|p ps IHps]; simpl; [done|].
  intros [Hp Hps]%andb_true_iff. rewrite (IHps Hps).
  destruct p as [s|f]; simpl; [done|].
  apply andb_true_iff in Hp as [Hf%negb_true_iff Hs].
  rewrite (output_markup_msg_free (build_string name_arg m1 d)
             (build_string name_arg m2 d) f m1 m2 Hf); [done|].
  intros Hx. rewrite Hx in Hs. by apply IH.
Qed.

Lemma fill_cons_part (o : result (option string))
    (skeleton : result (list (option string))) (msg : string) :
  fill (cons_part o skeleton) msg
  = (out ← (part ← o; Ok (default msg part));
     rest ← fill skeleton msg;
     Ok (out +:+ rest)).
Proof. by destruct o as [part|], skeleton as [parts|]. Qed.

Lemma build_string_S (msg : string) (d : nat) (tpl : string) :
  build_string name_arg msg (S d) tpl
  = do_markup name_arg msg (build_string name_arg msg d) (parse tpl).1 (parse tpl).2.
Proof. simpl. by destruct (parse tpl). Qed.

Lemma do_markup_skeleton (ps : list piece) (err : option exn) :
  forallb (λ p,
    match p with
    | Lit _ => true
    | Field f =>
        field_eqb f msg_placeholder
        || (negb (String.eqb (first_component f) "msg")
            && (negb (format_spec_needs_expanding f)
                || msg_free 1 (format_spec f)))
    end) ps = true →
  ∃ skeleton, ∀ msg,
    do_markup name_arg msg (build_string name_arg msg 1) ps err = fill skeleton msg.
Proof.
  induction ps as [|p ps IH]; cbn [forallb do_markup].
  - intros _. destruct err as [e|]; [by exists (Raise e) | by exists (Ok [])].
  - intros [Hp Hps]%andb_true_iff. destruct (IH Hps) as [skeleton Hsk].
    destruct p as [s|f]; cbn [output_piece].
    + exists (cons_part (Ok (Some s)) skeleton). intros msg.
      by rewrite fill_cons_part, <- Hsk.
    + apply orb_true_iff in Hp as [Hf|Hf].
      * apply field_eqb_eq in Hf as ->.
        exists (cons_part (Ok None) skeleton). intros msg.
        by rewrite fill_cons_part, <- Hsk, output_msg_placeholder.
      * apply andb_true_iff in Hf as [Hf%negb_true_iff Hs].
        exists (cons_part
                  (out ← output_markup name_arg "" (build_string name_arg "" 1) f;
                   Ok (Some out)) skeleton).
        intros msg. rewrite fill_cons_part, <- Hsk.
        rewrite (output_markup_msg_free (build_string name_arg msg 1)
                   (build_string name_arg "" 1) f msg "" Hf).
        -- by destruct (output_markup name_arg "" _ f).
        -- intros Hx. rewrite Hx in Hs. by apply build_string_msg_free.
Qed.

Lemma str_format_skeleton (tpl : string) :
  msg_only_plain tpl = true →
  ∃ skeleton, ∀ msg, str_format name_arg msg tpl = fill skeleton msg.
Proof.
  intros H. destruct (do_markup_skeleton (parse tpl).1 (parse tpl).2 H)
    as [skeleton Hsk].
  exists skeleton. intros msg. unfold str_format. by rewrite build_string_S.
Qed.

End MessageIndependence.

(** ** The renderer *)

Lemma detect_mood_ascii `{RT : PyRuntime} (msg : string) :
  is_ascii msg = true →
  SoloEngine._detect_mood msg = SoloEngine._detect_mood (RT:=Small.runtime) msg.
Proof.
  intros H. unfold SoloEngine._detect_mood. by rewrite (py_lower_ascii msg H).
Qed.

Lemma format_reply_plain `{RT : PyRuntime} (self : SoloEngine.t)
    (tpl nm msg : string) :
  plain_template tpl = true →
  SoloEngine.name self = YStr nm →
  SoloEngine.format_reply self (YStr tpl) msg
  = Ok (substitute nm msg (parse tpl).1).
Proof.
  unfold plain_template. intros [Hp He%bool_decide_eq_true]%andb_true_iff Hn.
  cbn [SoloEngine.format_reply]. unfold str_format.
  rewrite build_string_S, He. by apply do_markup_plain.
Qed.

(** The scenarios of the specification. *)
Example scenario_mad `{RT : PyRuntime} (now : string) :
  SoloEngine.respond damian "I am so mad" now
  = Ok (mkReply "Damian snaps: I am so mad" "angry" now).
Proof.
  unfold SoloEngine.respond. rewrite detect_mood_ascii by reflexivity.
  change (SoloEngine._detect_mood "I am so mad") with "angry".
  change (SoloEngine.select_template damian "angry")
    with (Ok (YStr "{name} snaps: {msg}")).
  cbn [mbind result_bind].
  by rewrite (format_reply_plain damian _ "Damian").
Qed.

Example scenario_hello `{RT : PyRuntime} (now : string) :
  SoloEngine.respond damian "hello there" now
  = Ok (mkReply "Damian says: hello there" "neutral" now).
Proof.
  unfold SoloEngine.respond. rewrite detect_mood_ascii by reflexivity.
  change (SoloEngine._detect_mood "hello there") with "neutral".
  change (SoloEngine.select_template damian "neutral")
    with (Ok (YStr "{name} says: {msg}")).
  cbn [mbind result_bind].
  by rewrite (format_reply_plain damian _ "Damian").
Qed.




(** ** The loader *)

Lemma require_key_entries (data : yaml) (m : gmap string yaml) (key : string) :
  entries data = Some m →
  SoloEngine.require_key data key
  = match m !! key with Some _ => Ok () | None => Raise ValueError end.
Proof.
  intros Hm. unfold SoloEngine.require_key.
  assert (Hin : py_in key data = Ok (bool_decide (is_Some (m !! key)))).
  { destruct data; try done; by injection Hm as ->. }
  rewrite Hin. cbn [mbind result_bind].
  destruct (m !! key) as [v|] eqn:E.
  - by rewrite bool_decide_eq_true_2.
  - by rewrite bool_decide_eq_false_2 by (by intros [? ?]).
Qed.

Lemma require_key_map (m : gmap string yaml) (key : string) :
  SoloEngine.require_key (YMap m) key
  = match m !! key with Some _ => Ok () | None => Raise ValueError end.
Proof. by apply require_key_entries. Qed.

Lemma subscript_entries (data : yaml) (m : gmap string yaml) (key : string) :
  entries data = Some m →
  subscript data key
  = match m !! key with Some v => Ok v | None => Raise LookupError end.
Proof. intros Hm. destruct data; try done; by injection Hm as ->. Qed.

Lemma subscript_not_mapping (data : yaml) (key : string) :
  entries data = None → subscript data key = Raise TypeError.
Proof. intros Hm. by destruct data. Qed.

Lemma require_key_cases (data : yaml) (key : string) :
  SoloEngine.require_key data key = Ok () ∨ raises (SoloEngine.require_key data key).
Proof.
  unfold SoloEngine.require_key. destruct (py_in key data) as [[|]|e]; cbn.
  - by left.
  - right. by exists ValueError.
  - right. by exists e.
Qed.

Lemma init_not_map (data : yaml) :
  entries data = None → SoloEngine.__init__ data = Raise TypeError.
Proof.
  intros H. unfold SoloEngine.__init__.
  rewrite (subscript_not_mapping data "basic_info" H). reflexivity.
Qed.

(** The part of [from_yaml] after the file has been read. *)
Lemma load_data_cases (data : yaml) :
  let r := (_ ← SoloEngine.require_key data "basic_info";
            _ ← SoloEngine.require_key data "speech_patterns";
            SoloEngine.__init__ data) in
  (has_required_keys data ∧ ∃ nm tp, r = Ok (SoloEngine.mk data nm tp)
     ∧ (subscript data "basic_info" ≫= λ b, subscript b "name") = Ok nm
     ∧ subscript data "speech_patterns" = Ok tp)
  ∨ (¬ has_required_keys data ∧ raises r).
Proof.
  intros r. subst r. unfold has_required_keys.
  destruct (entries data) as [m|] eqn:Em.
  - rewrite !(require_key_entries data m _ Em). unfold SoloEngine.__init__.
    rewrite !(subscript_entries data m _ Em).
    destruct (m !! "basic_info") as [info|] eqn:Eb; cbn.
    2:{ right. split; [|by exists ValueError].
        intros (m' & info & b & [= <-] & Hb & _). congruence. }
    destruct (m !! "speech_patterns") as [tp|] eqn:Et; cbn.
    2:{ right. split; [|by exists ValueError].
        intros (m' & info' & b & [= <-] & _ & _ & _ & [? Hs]). congruence. }
    destruct (entries info) as [b|] eqn:Ei.
    + rewrite (subscript_entries info b _ Ei).
      destruct (b !! "name") as [nm|] eqn:En; cbn.
      * left. split; [by exists m, info, b; eauto|]. by exists nm, tp.
      * right. split; [|by exists LookupError].
        intros (m' & info' & b' & [= <-] & Hb & Hi & [? Hn] & _). congruence.
    + rewrite (subscript_not_mapping info _ Ei). right. split.
      * intros (m' & info' & b' & [= <-] & Hb & Hi & _). congruence.
      * by exists TypeError.
  - right. split; [by intros (m & info & b & [=] & _)|].
    destruct (require_key_cases data "basic_info") as [->|H]; [|by apply raises_bind].
    cbn [mbind result_bind].
    destruct (require_key_cases data "speech_patterns") as [->|H]; [|by apply raises_bind].
    cbn [mbind result_bind]. rewrite (init_not_map data Em). by exists TypeError.
Qed.

Lemma from_yaml_result (path : string) (w : world) :
  (SoloEngine.from_yaml path w).1
  = (data ← fs w path;
     _ ← SoloEngine.require_key data "basic_info";
     _ ← SoloEngine.require_key data "speech_patterns";
     SoloEngine.__init__ data).
Proof. reflexivity. Qed.

(** C3.  Loading fails exactly when the file cannot be read or parsed, or
    when the loaded value lacks the required keys ("basic_info" holding a
    "name", and "speech_patterns"); otherwise it yields the profile with
    that name and those templates.  In particular a file without
    "speech_patterns" fails, and so does one whose "basic_info" has no
    "name". *)
Theorem load_fails_exactly (path : string) (w : world) :
  let r := (SoloEngine.from_yaml path w).1 in
  (raises r ↔
     raises (fs w path)
     ∨ ∃ data, fs w path = Ok data ∧ ¬ has_required_keys data)
  ∧ (∀ data, fs w path = Ok data → has_required_keys data →
       ∃ nm tp, r = Ok (SoloEngine.mk data nm tp)
                ∧ (subscript data "basic_info" ≫= λ b, subscript b "name") = Ok nm
                ∧ subscript data "speech_patterns" = Ok tp)
  ∧ (∀ m, fs w path = Ok (YMap m) → m !! "speech_patterns" = None → raises r)
  ∧ (∀ m b, fs w path = Ok (YMap m) → m !! "basic_info" = Some (YMap b) →
            b !! "name" = None → raises r).
Proof.
  intros r. subst r. rewrite from_yaml_result.
  assert (Hgood : ∀ data, fs w path = Ok data → has_required_keys data →
            ∃ nm tp,
              (data ← fs w path;
               _ ← SoloEngine.require_key data "basic_info";
               _ ← SoloEngine.require_key data "speech_patterns";
               SoloEngine.__init__ data) = Ok (SoloEngine.mk data nm tp)
              ∧ (subscript data "basic_info" ≫= λ b, subscript b "name") = Ok nm
              ∧ subscript data "speech_patterns" = Ok tp).
  { intros data -> Hk. cbn [mbind result_bind].
    destruct (load_data_cases data) as [(_ & nm & tp & H)|[Hn _]]; [|done].
    by exists nm, tp. }
  assert (Hbad : ∀ data, fs w path = Ok data → ¬ has_required_keys data →
            raises (data ← fs w path;
                    _ ← SoloEngine.require_key data "basic_info";
                    _ ← SoloEngine.require_key data "speech_patterns";
                    SoloEngine.__init__ data)).
  { intros data -> Hk. cbn [mbind result_bind].
    by destruct (load_data_cases data) as [[? _]|[_ H]]. }
  split; [|split; [done|split]].
  - split.
    + intros Hr. destruct (fs w path) as [data|e] eqn:E; [|left; by exists e].
      right. exists data. split; [done|]. intros Hk.
      destruct (Hgood data eq_refl Hk) as (nm & tp & H & _).
      destruct Hr as [e He]. congruence.
    + intros [H|(data & E & Hk)]; [by apply raises_bind | by apply (Hbad data)].
  - intros m E Hs. apply (Hbad _ E).
    intros (m' & info & b & [= <-] & _ & _ & _ & [? H]). congruence.
  - intros m b E Hb Hn. apply (Hbad _ E).
    intros (m' & info & b' & [= <-] & Hb' & Hi & [? H] & _).
    rewrite Hb in Hb'. injection Hb' as <-. injection Hi as <-. congruence.
Qed.

Lemma remove_first_head (h : string) (l : list string) :
  remove_first h (h :: l) = l.
Proof. cbn. by rewrite String.eqb_refl. Qed.

(** The outcome of the file-level loader and the state it leaves. *)
Lemma from_yaml_io_cases (safe_load : string → result yaml) (path : string)
    (s : system) :
  from_yaml_io safe_load path s
  = (match sys_files s path with
     | None => Raise OSError
     | Some text =>
         data ← safe_load text;
         _ ← SoloEngine.require_key data "basic_info";
         _ ← SoloEngine.require_key data "speech_patterns";
         SoloEngine.__init__ data
     end,
     mkSystem (sys_globals s) (sys_files s) (sys_open s) (path :: sys_reads s)).
Proof.
  unfold from_yaml_io, io_bind, py_open, with_file, safe_load_file, py_close, io_pure.
  destruct (sys_files s path) as [text|] eqn:E; [|done].
  cbn [sys_files sys_globals sys_open sys_reads snd]. rewrite E, remove_first_head.
  by destruct (safe_load text).
Qed.

(** C8.  A load has no effect but the read, which is logged: the
    module-level variables and the files are as before, and the file it
    opened is closed again, whether the load succeeded or failed.  Its outcome depends on the text
    of the file alone, not on the rest of the state, so a second load of
    the same file has the same outcome, with the same name and the same
    templates.  The outcome is the one of [from_yaml] on what opening and
    parsing the file gives. *)
Theorem load_only_reads (safe_load : string → result yaml) (path : string)
    (s : system) :
  let first := from_yaml_io safe_load path s in
  let second := from_yaml_io safe_load path first.2 in
  sys_globals first.2 = sys_globals s
  ∧ sys_files first.2 = sys_files s
  ∧ sys_open first.2 = sys_open s
  ∧ sys_reads first.2 = path :: sys_reads s
  ∧ second.1 = first.1
  ∧ (∀ e1 e2, first.1 = Ok e1 → second.1 = Ok e2 →
       SoloEngine.name e1 = SoloEngine.name e2
       ∧ SoloEngine.templates e1 = SoloEngine.templates e2)
  ∧ (∀ s', sys_files s' path = sys_files s path →
       (from_yaml_io safe_load path s').1 = first.1)
  ∧ first.1
    = (SoloEngine.from_yaml path
         (mkWorld (fs_of safe_load (sys_files s)) (sys_reads s))).1.
Proof.
  intros first second. subst first second.
  assert (Hsame : ∀ s', sys_files s' path = sys_files s path →
            (from_yaml_io safe_load path s').1
            = (from_yaml_io safe_load path s).1).
  { intros s' E. rewrite !from_yaml_io_cases, E.
    by destruct (sys_files s path). }
  assert (Hframe : sys_globals (from_yaml_io safe_load path s).2 = sys_globals s
                   ∧ sys_files (from_yaml_io safe_load path s).2 = sys_files s
                   ∧ sys_open (from_yaml_io safe_load path s).2 = sys_open s
                   ∧ sys_reads (from_yaml_io safe_load path s).2
                     = path :: sys_reads s).
  { by rewrite from_yaml_io_cases. }
  destruct Hframe as (Hg & Hf & Ho & Hr).
  assert (Hsecond : (from_yaml_io safe_load path (from_yaml_io safe_load path s).2).1
                    = (from_yaml_io safe_load path s).1)
    by (apply Hsame; by rewrite Hf).
  split_and!; try done.
  - intros e1 e2 H1 H2. rewrite Hsecond, H1 in H2. by injection H2 as ->.
  - rewrite from_yaml_io_cases, from_yaml_result. cbn [fs]. unfold fs_of.
    by destruct (sys_files s path).
Qed.

(** ** Failures of the format call *)

Lemma load_engine_loaded (g : globals) (w : world) (eng : SoloEngine.t) :
  _engine g = Some eng → _load_engine g w = (Ok eng, g, w).
Proof. intros H. unfold _load_engine. by rewrite H. Qed.

Lemma respond_loaded `{RT : PyRuntime} (g : globals) (w : world)
    (eng : SoloEngine.t) (payload : MessageIn) (now : string) :
  _engine g = Some eng →
  respond payload now g w
  = (out ← SoloEngine.respond eng (message payload) now; Ok (ReplyOut out), g, w).
Proof. intros H. unfold respond. by rewrite (load_engine_loaded g w eng H). Qed.

Lemma reset_loaded (g : globals) (w : world) (eng : SoloEngine.t) :
  _engine g = Some eng → reset g w = (Ok NoContent, g, w).
Proof.
  intros H. unfold reset. rewrite (load_engine_loaded g w eng H).
  destruct g as [p e]; simpl in *. by subst e.
Qed.

(** C4.  When the template selected for a message refers to an argument
    other than [name] and [msg], the engine's [respond] raises, the route
    passes the exception on, and neither the singleton nor anything else
    of the process state changes: the requests that follow are served as
    if the failing one had not been made. *)
Theorem unknown_placeholder_fails `{RT : PyRuntime} (g : globals)
    (eng : SoloEngine.t) (payload : MessageIn) (tpl : string) :
  _engine g = Some eng →
  SoloEngine.select_template eng (SoloEngine._detect_mood (message payload))
  = Ok (YStr tpl) →
  references_unknown 2 tpl = true →
  ∀ now, ∃ e,
    SoloEngine.respond eng (message payload) now = Raise e
    ∧ (∀ w, respond payload now g w = (Raise e, g, w))
    ∧ (∀ files evs log,
         run (mkEvent files now (POST_respond payload) :: evs) g log
         = let '(rs, g', log') := run evs g log in (Raise e :: rs, g', log')).
Proof.
  intros Hg Hsel Hunk now.
  destruct (references_unknown_raises (SoloEngine.name eng) (message payload) 2 tpl Hunk)
    as [e He].
  assert (Hr : SoloEngine.respond eng (message payload) now = Raise e).
  { unfold SoloEngine.respond. rewrite Hsel. cbn [mbind result_bind].
    cbn [SoloEngine.format_reply]. unfold str_format. by rewrite He. }
  assert (Hroute : ∀ w, respond payload now g w = (Raise e, g, w)).
  { intros w. by rewrite (respond_loaded g w eng), Hr. }
  exists e. repeat split; [done..|].
  intros files evs log. cbn [run serve ev_req ev_now ev_fs].
  rewrite Hroute. cbn [reads]. by destruct (run evs g log) as [[rs g'] log'].
Qed.

Lemma unknown_placeholder_fails_witness :
  ∃ e, SoloEngine.respond (RT:=Small.runtime) moody "hello" "T" = Raise e.
Proof.
  destruct (unknown_placeholder_fails (RT:=Small.runtime)
              (mkGlobals "damian_knight_dusk.yaml" (Some moody)) moody
              (mkMessageIn None "hello") "{name} ({mood}): {msg}"
              eq_refl eq_refl eq_refl "T") as (e & He & _).
  by exists e.
Defined.

(** C5.  When the selected template has the placeholder [{msg}], every
    reply the format call returns contains the message as it was sent; and
    for a template made of text and the two placeholders, with a character
    name that is a string, the call does return a reply. *)
Theorem reply_contains_message `{RT : PyRuntime} (self : SoloEngine.t)
    (mood msg tpl : string) :
  SoloEngine.select_template self mood = Ok (YStr tpl) →
  has_msg_placeholder tpl →
  (∀ r, SoloEngine.format_reply self (YStr tpl) msg = Ok r → occurs msg r)
  ∧ (mood = SoloEngine._detect_mood msg →
     ∀ now out, SoloEngine.respond self msg now = Ok out → occurs msg (reply out))
  ∧ (plain_template tpl = true → is_str (SoloEngine.name self) = true →
     ∃ r, SoloEngine.format_reply self (YStr tpl) msg = Ok r ∧ occurs msg r).
Proof.
  intros Hsel Hin.
  assert (Hfmt : ∀ r, SoloEngine.format_reply self (YStr tpl) msg = Ok r →
                      occurs msg r).
  { intros r. cbn [SoloEngine.format_reply]. unfold str_format.
    rewrite build_string_S. intros (_ & outs & Hall & ->)%do_markup_ok.
    apply occurs_concat.
    destruct (proj1 (list_elem_of_lookup _ _) Hin) as [i Hi].
    destruct (Forall2_lookup_l _ _ _ _ _ Hall Hi) as (o & Ho & Hout).
    cbn [output_piece] in Hout. rewrite output_msg_placeholder in Hout.
    injection Hout as <-. by apply (list_elem_of_lookup_2 _ i). }
  split; [done|split].
  - intros -> now out. unfold SoloEngine.respond. rewrite Hsel.
    cbn [mbind result_bind].
    destruct (SoloEngine.format_reply self (YStr tpl) msg) as [r|] eqn:E; [|done].
    intros [= <-]. by apply Hfmt.
  - intros Hp Hs. destruct (SoloEngine.name self) as [| | | |nm| | |] eqn:En; try done.
    exists (substitute nm msg (parse tpl).1).
    pose proof (format_reply_plain self tpl nm msg Hp En) as H.
    split; [done | by apply Hfmt].
Qed.

Lemma reply_contains_message_witness :
  occurs "hello there" "Damian says: hello there".
Proof.
  destruct (reply_contains_message (RT:=Small.runtime) damian "neutral"
              "hello there" "{name} says: {msg}" eq_refl) as (H & _).
  - unfold has_msg_placeholder. apply list_elem_of_In. vm_compute. tauto.
  - by apply H.
Defined.

(** ** The singleton and [reset] *)

Lemma serve_loaded `{RT : PyRuntime} (g : globals) (w : world)
    (eng : SoloEngine.t) (req : request) (now : string) :
  _engine g = Some eng → ∃ r, serve req now g w = (r, g, w).
Proof.
  intros H. destruct req as [payload| |]; cbn [serve].
  - rewrite (respond_loaded g w eng payload now H). by eexists.
  - rewrite (reset_loaded g w eng H). by eexists.
  - by eexists.
Qed.

Lemma run_loaded `{RT : PyRuntime} (evs : list event) (g : globals)
    (eng : SoloEngine.t) (log : list string) :
  _engine g = Some eng → ∃ rs, run evs g log = (rs, g, log).
Proof.
  intros H. revert log. induction evs as [|ev evs IH]; intros log; cbn [run].
  - by eexists.
  - destruct (serve_loaded g (mkWorld (ev_fs ev) log) eng (ev_req ev) (ev_now ev) H)
      as [r ->]. cbn [reads].
    destruct (IH log) as [rs ->]. by eexists.
Qed.

(** C6.  The method [reset] returns without raising and leaves the engine
    as it is, so [respond] gives the same result after it; on a loaded
    engine the route [POST /reset] answers 204 and changes nothing, and a
    [POST /respond] served after it is answered as it is without it. *)
Theorem reset_is_noop `{RT : PyRuntime} :
  (∀ self, SoloEngine.reset self = (Ok (), self))
  ∧ (∀ self msg now,
       SoloEngine.respond (SoloEngine.reset self).2 msg now
       = SoloEngine.respond self msg now)
  ∧ (∀ g eng w, _engine g = Some eng → reset g w = (Ok NoContent, g, w))
  ∧ (∀ g eng log f1 f2 n1 n2 payload,
       _engine g = Some eng →
       ∃ r, run [mkEvent f1 n1 POST_reset; mkEvent f2 n2 (POST_respond payload)] g log
            = ([Ok NoContent; r], g, log)
            ∧ run [mkEvent f2 n2 (POST_respond payload)] g log = ([r], g, log)).
Proof.
  repeat split.
  - intros g eng w H. by apply (reset_loaded g w eng).
  - intros g eng log f1 f2 n1 n2 payload H. cbn [run serve ev_req ev_now ev_fs].
    rewrite (reset_loaded g _ eng H). cbn [reads].
    rewrite (respond_loaded g _ eng payload n2 H). cbn [reads]. by eexists.
Qed.

Lemma load_engine_unloaded (g : globals) (w : world) :
  _engine g = None →
  _load_engine g w
  = match (SoloEngine.from_yaml (CHAR_YAML_PATH g) w).1 with
    | Ok eng =>
        (Ok eng, mkGlobals (CHAR_YAML_PATH g) (Some eng),
         mkWorld (fs w) (CHAR_YAML_PATH g :: reads w))
    | Raise e => (Raise e, g, mkWorld (fs w) (CHAR_YAML_PATH g :: reads w))
    end.
Proof.
  intros H. unfold _load_engine. rewrite H.
  change (SoloEngine.from_yaml (CHAR_YAML_PATH g) w)
    with ((SoloEngine.from_yaml (CHAR_YAML_PATH g) w).1,
          mkWorld (fs w) (CHAR_YAML_PATH g :: reads w)).
  by destruct ((SoloEngine.from_yaml (CHAR_YAML_PATH g) w).1).
Qed.

(** A request that takes its steps with no other request in between is
    served as [serve] says: four steps are enough for any route. *)
Lemma serve_uninterrupted `{RT : PyRuntime} (req : request) (now : string)
    (g : globals) (files : string → result yaml) (log : list string) :
  thread_alone 4 files g log (mkThread req now AtCheck)
  = let '(r, g', w') := serve req now g (mkWorld files log) in
    (g', reads w', mkThread req now (Finished r)).
Proof.
  destruct g as [path [eng|]].
  - destruct req as [payload| |]; reflexivity.
  - destruct req as [payload| |]; [| |reflexivity].
    + cbn [serve]. unfold respond. rewrite load_engine_unloaded by done.
      cbn [thread_alone step_thread th_pc th_req at_pc _engine CHAR_YAML_PATH].
      change (SoloEngine.from_yaml path (mkWorld files log))
        with ((SoloEngine.from_yaml path (mkWorld files log)).1,
              mkWorld files (path :: log)).
      by destruct ((SoloEngine.from_yaml path (mkWorld files log)).1).
    + cbn [serve]. unfold reset. rewrite load_engine_unloaded by done.
      cbn [thread_alone step_thread th_pc th_req at_pc _engine CHAR_YAML_PATH].
      change (SoloEngine.from_yaml path (mkWorld files log))
        with ((SoloEngine.from_yaml path (mkWorld files log)).1,
              mkWorld files (path :: log)).
      by destruct ((SoloEngine.from_yaml path (mkWorld files log)).1).
Qed.

Lemma exec_step_at `{RT : PyRuntime} (p : process) (i : nat)
    (files : string → result yaml) (t : thread) :
  pr_threads p !! i = Some t →
  exec_step p (i, files)
  = let '(g, log, t') := step_thread files (pr_globals p) (pr_reads p) t in
    mkProcess g log (<[i := t']> (pr_threads p)).
Proof. intros H. unfold exec_step. cbn [fst snd]. by rewrite H. Qed.

Lemma exec_app `{RT : PyRuntime} (s1 s2 : list (nat * (string → result yaml)))
    (p : process) :
  exec (s1 ++ s2)%list p = exec s2 (exec s1 p).
Proof. unfold exec. by rewrite foldl_app. Qed.

Lemma exec_alone `{RT : PyRuntime} (n : nat) (files : string → result yaml)
    (g : globals) (log : list string) (pre post : list thread) (t : thread) :
  exec (replicate n (length pre, files)) (mkProcess g log (pre ++ t :: post)%list)
  = let '(g', log', t') := thread_alone n files g log t in
    mkProcess g' log' (pre ++ t' :: post)%list.
Proof.
  revert g log t. induction n as [|n IH]; intros g log t; [done|].
  cbn [replicate thread_alone].
  change (exec ((length pre, files) :: replicate n (length pre, files))
            (mkProcess g log (pre ++ t :: post)%list))
    with (exec (replicate n (length pre, files))
            (exec_step (mkProcess g log (pre ++ t :: post)%list) (length pre, files))).
  rewrite (exec_step_at _ _ _ t) by (by apply list_lookup_middle).
  cbn [pr_globals pr_reads pr_threads].
  destruct (step_thread files g log t) as [[g1 log1] t1].
  replace (<[length pre := t1]> (pre ++ t :: post)%list)
    with (pre ++ t1 :: post)%list
    by (by rewrite insert_app_r_alt, Nat.sub_diag).
  apply IH.
Qed.

(** Serving requests one after another is [run]: the schedule in which
    each thread takes all its steps before the next one moves leaves the
    process as [run] says, every thread finished with its outcome. *)
Lemma run_is_one_by_one `{RT : PyRuntime} (evs : list event) (pre : list thread)
    (g : globals) (log : list string) :
  exec (one_by_one (length pre) evs)
    (mkProcess g log (pre ++ map thread_of evs)%list)
  = let '(rs, g', log') := run evs g log in
    mkProcess g' log' (pre ++ zip_with finished_thread evs rs)%list.
Proof.
  revert pre g log. induction evs as [|ev evs IH]; intros pre g log; [done|].
  cbn [one_by_one map run]. rewrite exec_app.
  unfold thread_of at 1. rewrite exec_alone, serve_uninterrupted.
  destruct (serve (ev_req ev) (ev_now ev) g (mkWorld (ev_fs ev) log))
    as [[r g1] w1].
  specialize (IH (pre ++ [finished_thread ev r])%list g1 (reads w1)).
  rewrite length_app in IH. cbn [length] in IH.
  rewrite Nat.add_1_r, <- app_assoc in IH. cbn [app] in IH.
  change (mkThread (ev_req ev) (ev_now ev) (Finished r))
    with (finished_thread ev r).
  rewrite IH.
  destruct (run evs g1 (reads w1)) as [[rs g2] log2].
  by rewrite <- app_assoc.
Qed.




(** ** Empty templates *)



(** ** The message is data *)

(** C10, as the code has it.  When the selected template refers to the
    message through the plain placeholder [{msg}] only, the outcome of the
    format call is fixed by the template and the name up to the message
    itself: either an exception, the same for every message, or a reply
    made of fixed texts with the message, verbatim, in the holes.  So the
    message is never read as a template, and whether the call raises does
    not depend on it. *)
Theorem message_is_data `{RT : PyRuntime} (self : SoloEngine.t) (tpl : string) :
  msg_only_plain tpl = true →
  (∃ skeleton, ∀ msg,
     SoloEngine.format_reply self (YStr tpl) msg = fill skeleton msg)
  ∧ (∀ m1 m2 e, SoloEngine.format_reply self (YStr tpl) m1 = Raise e →
                SoloEngine.format_reply self (YStr tpl) m2 = Raise e)
  ∧ (∀ nm msg, plain_template tpl = true → SoloEngine.name self = YStr nm →
       SoloEngine.format_reply self (YStr tpl) msg
       = Ok (substitute nm msg (parse tpl).1)).
Proof.
  intros H.
  destruct (str_format_skeleton (SoloEngine.name self) tpl H) as [skeleton Hsk].
  cbn [SoloEngine.format_reply]. repeat split.
  - by exists skeleton.
  - intros m1 m2 e. rewrite !Hsk. by destruct skeleton.
  - intros nm msg Hp Hn. by apply (format_reply_plain self tpl nm msg).
Qed.

Lemma message_is_data_witness :
  SoloEngine.respond (RT:=Small.runtime) damian "{name} }{ {0}" "T"
  = Ok (mkReply "Damian says: {name} }{ {0}" "neutral" "T")
  ∧ SoloEngine.format_reply (RT:=Small.runtime) damian
      (YStr "{name} says: {msg}") "{name} }{ {0}"
    = Ok "Damian says: {name} }{ {0}".
Proof.
  split; [reflexivity|].
  exact (proj2 (proj2 (message_is_data (RT:=Small.runtime) damian
                         "{name} says: {msg}" eq_refl))
           "Damian" "{name} }{ {0}" eq_refl eq_refl).
Defined.

(** C10, as stated for every profile, fails: with the template
    "{msg[0]}" the message "a" is answered with "a", and the empty message
    makes the format call raise (IndexError: there is no first
    character). *)
Lemma message_triggers_failure_counterexample :
  SoloEngine.select_template initial "neutral" = Ok (YStr "{msg[0]}")
  ∧ SoloEngine.respond (RT:=Small.runtime) initial "a" "T"
    = Ok (mkReply "a" "neutral" "T")
  ∧ SoloEngine.respond (RT:=Small.runtime) initial "" "T" = Raise LookupError.
Proof. repeat split; reflexivity. Qed.

(** * Further properties *)

(** ** Moods of ASCII messages *)

Lemma append_nil_r (a : string) : a +:+ "" = a.
Proof. induction a as [|x a IH]; [done|]. by rewrite append_cons, IH. Qed.

Lemma ascii_lower_app (a b : string) :
  ascii_lower (a +:+ b) = ascii_lower a +:+ ascii_lower b.
Proof.
  induction a as [|x a IH]; [done|].
  rewrite append_cons. cbn [ascii_lower]. by rewrite IH, append_cons.
Qed.

Lemma is_ascii_app (a b : string) :
  is_ascii (a +:+ b) = is_ascii a && is_ascii b.
Proof.
  induction a as [|x a IH]; [done|].
  rewrite append_cons. cbn [is_ascii]. by rewrite IH, andb_assoc.
Qed.

Lemma occurs_extend (kw a s b : string) :
  occurs kw s → occurs kw (a +:+ s +:+ b).
Proof.
  intros (pre & post & ->). exists (a +:+ pre), (post +:+ b).
  by rewrite !append_assoc.
Qed.

Lemma any_contains_extend (kws : list string) (a s b : string) :
  existsb (λ x, contains x s) kws = true →
  existsb (λ x, contains x (a +:+ s +:+ b)) kws = true.
Proof.
  rewrite !any_contains_spec. intros (kw & Hin & H).
  exists kw. split; [done | by apply occurs_extend].
Qed.

Lemma detect_mood_ascii_lower `{RT : PyRuntime} (msg : string) :
  is_ascii msg = true →
  SoloEngine._detect_mood msg
  = if existsb (λ x, contains x (ascii_lower msg)) SoloEngine.anger_keywords
    then "angry"
    else if existsb (λ x, contains x (ascii_lower msg)) SoloEngine.happy_keywords
         then "happy" else "neutral".
Proof.
  intros H. unfold SoloEngine._detect_mood. by rewrite (py_lower_ascii msg H).
Qed.

(** X1.  An ASCII message that contains an anger keyword in any
    capitalisation, anywhere, even inside a longer word, is "angry". *)
Theorem anger_keyword_any_case `{RT : PyRuntime} (pre kw post : string) :
  is_ascii pre = true → is_ascii kw = true → is_ascii post = true →
  ascii_lower kw ∈ SoloEngine.anger_keywords →
  SoloEngine._detect_mood (pre +:+ kw +:+ post) = "angry".
Proof.
  intros Hpre Hkw Hpost Hin.
  rewrite detect_mood_ascii_lower by (by rewrite !is_ascii_app, Hpre, Hkw, Hpost).
  rewrite !ascii_lower_app.
  assert (H : existsb (λ x, contains x
                (ascii_lower pre +:+ ascii_lower kw +:+ ascii_lower post))
                SoloEngine.anger_keywords = true); [|by rewrite H].
  apply any_contains_spec. exists (ascii_lower kw). split; [done|].
  by exists (ascii_lower pre), (ascii_lower post).
Qed.

Lemma anger_keyword_any_case_witness :
  SoloEngine._detect_mood (RT:=Small.runtime) ("A no" +:+ "MaD" +:+ "ic life")
  = "angry".
Proof.
  apply (anger_keyword_any_case (RT:=Small.runtime) "A no" "MaD" "ic life");
    try reflexivity.
  apply list_elem_of_In. vm_compute. tauto.
Defined.

(** X2.  For ASCII text, anger survives any text added around a message,
    and a message inside a "neutral" text is "neutral" itself. *)
Theorem mood_of_part_and_whole `{RT : PyRuntime} (pre msg post : string) :
  is_ascii pre = true → is_ascii msg = true → is_ascii post = true →
  (SoloEngine._detect_mood msg = "angry" →
   SoloEngine._detect_mood (pre +:+ msg +:+ post) = "angry")
  ∧ (SoloEngine._detect_mood (pre +:+ msg +:+ post) = "neutral" →
     SoloEngine._detect_mood msg = "neutral").
Proof.
  intros Hpre Hmsg Hpost.
  rewrite (detect_mood_ascii_lower msg Hmsg).
  rewrite detect_mood_ascii_lower by (by rewrite !is_ascii_app, Hpre, Hmsg, Hpost).
  rewrite !ascii_lower_app.
  pose proof (any_contains_extend SoloEngine.anger_keywords (ascii_lower pre)
                (ascii_lower msg) (ascii_lower post)) as Ha.
  pose proof (any_contains_extend SoloEngine.happy_keywords (ascii_lower pre)
                (ascii_lower msg) (ascii_lower post)) as Hh.
  destruct (existsb _ SoloEngine.anger_keywords) eqn:Ea.
  - rewrite (Ha eq_refl). done.
  - destruct (existsb _ SoloEngine.happy_keywords) eqn:Eh.
    + rewrite (Hh eq_refl). split; [done|].
      clear Ha.
      destruct (existsb (λ x, contains x (ascii_lower pre +:+ _))
                  SoloEngine.anger_keywords); intros [=].
    + split; [done|]. by intros _.
Qed.

Lemma mood_of_part_and_whole_witness :
  SoloEngine._detect_mood (RT:=Small.runtime) ("I love you but " +:+ "I am angry" +:+ "!")
  = "angry".
Proof.
  apply (mood_of_part_and_whole (RT:=Small.runtime) "I love you but " "I am angry" "!");
    reflexivity.
Defined.

(** ** Templates as they are written *)

Lemma scan_lit_open (acc s : string) :
  scan (MLit acc) (String "{" (String "{" s)) = scan (MLit (snoc acc "{")) s.
Proof. reflexivity. Qed.

Lemma scan_lit_close (acc s : string) :
  scan (MLit acc) (String "}" (String "}" s)) = scan (MLit (snoc acc "}")) s.
Proof. reflexivity. Qed.

Lemma scan_lit_other (acc : string) (c : ascii) (s : string) :
  Ascii.eqb c "{" = false → Ascii.eqb c "}" = false →
  scan (MLit acc) (String c s) = scan (MLit (snoc acc c)) s.
Proof. intros H1 H2. cbn [scan]. by rewrite H1, H2. Qed.

Lemma scan_escape (acc a rest : string) :
  scan (MLit acc) (escape a +:+ rest) = scan (MLit (acc +:+ a)) rest.
Proof.
  revert acc; induction a as [|c a IH]; intros acc.
  - by rewrite append_nil_r.
  - assert (Hacc : ∀ x, snoc acc x +:+ a = acc +:+ String x a).
    { intros x. unfold snoc. by rewrite append_assoc. }
    cbn [escape]. destruct (Ascii.eqb c "{") eqn:Eo.
    + apply Ascii.eqb_eq in Eo as ->. cbn [orb]. rewrite !append_cons.
      by rewrite scan_lit_open, IH, Hacc.
    + destruct (Ascii.eqb c "}") eqn:Ec.
      * apply Ascii.eqb_eq in Ec as ->. cbn [orb]. rewrite !append_cons.
        by rewrite scan_lit_close, IH, Hacc.
      * cbn [orb]. rewrite append_cons.
        by rewrite (scan_lit_other _ _ _ Eo Ec), IH, Hacc.
Qed.

Lemma scan_name_placeholder (acc rest : string) :
  scan (MLit acc) (piece_text (Field name_placeholder) +:+ rest)
  = emit_lit acc (emit (Field name_placeholder) (scan (MLit "") rest)).
Proof. reflexivity. Qed.

Lemma scan_msg_placeholder (acc rest : string) :
  scan (MLit acc) (piece_text (Field msg_placeholder) +:+ rest)
  = emit_lit acc (emit (Field msg_placeholder) (scan (MLit "") rest)).
Proof. reflexivity. Qed.

Section Writing.
Context `{RT : PyRuntime}.
Variable name_arg : yaml.
Variable msg_arg : string.

(** Formatting what the scanner delivers. *)
Let render (r : list piece * option exn) : result string :=
  do_markup name_arg msg_arg (build_string name_arg msg_arg 1) r.1 r.2.

Lemma render_emit_lit (acc : string) (r : list piece * option exn) :
  render (emit_lit acc r) = (rest ← render r; Ok (acc +:+ rest)).
Proof.
  unfold render. destruct acc as [|c acc]; [|done].
  cbn [emit_lit]. by destruct (do_markup _ _ _ r.1 r.2).
Qed.

Lemma str_format_render (tpl : string) :
  str_format name_arg msg_arg tpl = render (parse tpl).
Proof. unfold str_format, render. by rewrite build_string_S. Qed.

Lemma render_template_text (nm acc : string) (ps : list piece) :
  name_arg = YStr nm →
  forallb plain_piece ps = true →
  render (scan (MLit acc) (template_text ps))
  = Ok (acc +:+ substitute nm msg_arg ps).
Proof.
  intros Hn. revert acc. induction ps as [|p ps IH]; intros acc Hps.
  - change (template_text []) with "". cbn [scan].
    rewrite render_emit_lit. done.
  - cbn [forallb] in Hps. apply andb_true_iff in Hps as [Hp Hps].
    change (template_text (p :: ps)) with (piece_text p +:+ template_text ps).
    change (substitute nm msg_arg (p :: ps))
      with (substitute_piece nm msg_arg p +:+ substitute nm msg_arg ps).
    destruct p as [s|f].
    + cbn [piece_text substitute_piece]. rewrite scan_escape, (IH _ Hps).
      by rewrite append_assoc.
    + cbn [plain_piece] in Hp.
      apply orb_true_iff in Hp as [Hf|Hf]; apply field_eqb_eq in Hf as ->.
      * rewrite scan_name_placeholder, render_emit_lit. unfold render.
        cbn [emit fst snd do_markup output_piece].
        rewrite (output_name_placeholder name_arg msg_arg _ nm Hn).
        fold (render (scan (MLit "") (template_text ps))).
        by rewrite (IH "" Hps).
      * rewrite scan_msg_placeholder, render_emit_lit. unfold render.
        cbn [emit fst snd do_markup output_piece].
        rewrite output_msg_placeholder.
        fold (render (scan (MLit "") (template_text ps))).
        by rewrite (IH "" Hps).
Qed.

End Writing.

(** X3.  A template written as text, with every brace of the text doubled,
    and the placeholders [{name}] and [{msg}] formats to that text, braces
    single, with the character's name and the message in the place of the
    placeholders. *)
Theorem written_template_round_trip `{RT : PyRuntime} (self : SoloEngine.t)
    (nm msg : string) (ps : list piece) :
  SoloEngine.name self = YStr nm →
  forallb plain_piece ps = true →
  SoloEngine.format_reply self (YStr (template_text ps)) msg
  = Ok (substitute nm msg ps).
Proof.
  intros Hn Hps. cbn [SoloEngine.format_reply].
  rewrite str_format_render. unfold parse.
  by rewrite (render_template_text _ _ nm "" ps Hn Hps).
Qed.

Lemma written_template_round_trip_witness :
  SoloEngine.format_reply (RT:=Small.runtime) damian
    (YStr "{{{name}}} says: {msg}") "hi"
  = Ok "{Damian} says: hi".
Proof.
  exact (written_template_round_trip (RT:=Small.runtime) damian "Damian" "hi"
           [Lit "{"; Field name_placeholder; Lit "} says: "; Field msg_placeholder]
           eq_refl eq_refl).
Defined.

(** X4.  A template without placeholders, its braces doubled, is the reply
    to every message, whatever the character's name is. *)
Theorem literal_template_is_the_reply `{RT : PyRuntime} (self : SoloEngine.t)
    (text msg : string) :
  SoloEngine.format_reply self (YStr (escape text)) msg = Ok text.
Proof.
  cbn [SoloEngine.format_reply]. rewrite str_format_render. unfold parse.
  rewrite <- (append_nil_r (escape text)), scan_escape.
  cbn [scan]. rewrite render_emit_lit. cbn. by rewrite append_nil_r.
Qed.

(** X5.  A closing brace that is not doubled, or an opening brace at the
    very end, after text without placeholders, makes the format call raise
    ValueError. *)
Theorem stray_brace_raises `{RT : PyRuntime} (self : SoloEngine.t)
    (text rest msg : string) :
  String.get 0 rest ≠ Some "}"%char →
  SoloEngine.format_reply self (YStr (escape text +:+ "}" +:+ rest)) msg
  = Raise ValueError
  ∧ SoloEngine.format_reply self (YStr (escape text +:+ "{")) msg
    = Raise ValueError.
Proof.
  intros Hrest. cbn [SoloEngine.format_reply].
  rewrite !str_format_render. unfold parse. rewrite !scan_escape. split.
  - change ("}" +:+ rest) with (String "}" rest). cbn [scan].
    destruct rest as [|c rest]; [done|].
    destruct (Ascii.eqb_spec c "}") as [->|_]; [by destruct Hrest | done].
  - done.
Qed.

Lemma stray_brace_raises_witness :
  SoloEngine.format_reply (RT:=Small.runtime) damian (YStr "so} what") "hi"
  = Raise ValueError.
Proof.
  by apply (stray_brace_raises (RT:=Small.runtime) damian "so" " what" "hi").
Defined.

(** X6.  A template none of whose fields refers to [msg] gives the same
    outcome for every message. *)
Theorem template_without_msg_ignores_message `{RT : PyRuntime}
    (self : SoloEngine.t) (tpl m1 m2 : string) :
  msg_free 2 tpl = true →
  SoloEngine.format_reply self (YStr tpl) m1
  = SoloEngine.format_reply self (YStr tpl) m2.
Proof.
  intros H. cbn [SoloEngine.format_reply]. unfold str_format.
  by apply build_string_msg_free.
Qed.

Lemma template_without_msg_ignores_message_witness :
  SoloEngine.format_reply (RT:=Small.runtime) damian (YStr "{name} shrugs.") "hi"
  = SoloEngine.format_reply (RT:=Small.runtime) damian (YStr "{name} shrugs.") "bye".
Proof.
  by apply (template_without_msg_ignores_message (RT:=Small.runtime) damian
              "{name} shrugs." "hi" "bye").
Defined.

Lemma do_markup_member `{RT : PyRuntime} (name_arg : yaml) (msg_arg : string)
    (expand : string → result string) (f : field) (ps : list piece)
    (err : option exn) :
  Field f ∈ ps →
  raises (output_markup name_arg msg_arg expand f) →
  raises (do_markup name_arg msg_arg expand ps err).
Proof.
  intros Hin Hf. induction ps as [|p ps IH]; [by apply elem_of_nil in Hin|].
  cbn [do_markup]. apply elem_of_cons in Hin as [<-|Hin].
  - by apply raises_bind.
  - apply raises_bind_k; intros o. by apply raises_bind, IH.
Qed.

Lemma output_markup_expand_raises `{RT : PyRuntime} (name_arg : yaml)
    (msg_arg : string) (expand : string → result string) (f : field) :
  format_spec_needs_expanding f = true →
  raises (expand (format_spec f)) →
  raises (output_markup name_arg msg_arg expand f).
Proof.
  intros Hx He. unfold output_markup. rewrite Hx.
  do 2 (apply raises_bind_k; intros ?). by apply raises_bind.
Qed.

(** X7.  Format specs nest one level only: a template with a field whose
    spec holds a field whose own spec holds a field makes the format call
    raise. *)
Theorem doubly_nested_spec_raises `{RT : PyRuntime} (self : SoloEngine.t)
    (tpl msg : string) (outer inner : field) :
  Field outer ∈ (parse tpl).1 →
  format_spec_needs_expanding outer = true →
  Field inner ∈ (parse (format_spec outer)).1 →
  format_spec_needs_expanding inner = true →
  raises (SoloEngine.format_reply self (YStr tpl) msg).
Proof.
  intros Ho Hxo Hi Hxi. cbn [SoloEngine.format_reply]. unfold str_format.
  rewrite build_string_S. apply (do_markup_member _ _ _ outer); [done|].
  apply output_markup_expand_raises; [done|].
  rewrite build_string_S. apply (do_markup_member _ _ _ inner); [done|].
  apply output_markup_expand_raises; [done|]. by exists ValueError.
Qed.

Lemma doubly_nested_spec_raises_witness :
  raises (SoloEngine.format_reply (RT:=Small.runtime) damian
            (YStr "{msg:{name:{msg}}}") "hi").
Proof.
  apply (doubly_nested_spec_raises (RT:=Small.runtime) damian
           "{msg:{name:{msg}}}" "hi"
           (mkField "msg" "000" "{name:{msg}}" true)
           (mkField "name" "000" "{msg}" true)).
  - apply list_elem_of_In. vm_compute. tauto.
  - reflexivity.
  - apply list_elem_of_In. vm_compute. tauto.
  - reflexivity.
Defined.

(** ** More on the loader *)

Lemma from_yaml_map (path : string) (w : world) (m : gmap string yaml) :
  fs w path = Ok (YMap m) →
  (SoloEngine.from_yaml path w).1
  = match m !! "basic_info", m !! "speech_patterns" with
    | Some b, Some tp =>
        nm ← subscript b "name"; Ok (SoloEngine.mk (YMap m) nm tp)
    | _, _ => Raise ValueError
    end.
Proof.
  intros E. rewrite from_yaml_result, E. cbn [mbind result_bind].
  rewrite !require_key_map. unfold SoloEngine.__init__. cbn [subscript].
  destruct (m !! "basic_info") as [b|]; [|done].
  destruct (m !! "speech_patterns") as [tp|]; [|done].
  cbn [mbind result_bind]. by destruct (subscript b "name").
Qed.

(** X8.  Only "basic_info" and "speech_patterns" matter to the loader: a
    file with one more top-level key loads, or fails, as the file without
    it, and gives the same name and the same templates. *)
Theorem load_ignores_other_keys (path : string) (w1 w2 : world)
    (m : gmap string yaml) (k : string) (v : yaml) :
  fs w1 path = Ok (YMap m) →
  fs w2 path = Ok (YMap (<[k:=v]> m)) →
  k ≠ "basic_info" → k ≠ "speech_patterns" →
  (SoloEngine.from_yaml path w2).1
  = (eng ← (SoloEngine.from_yaml path w1).1;
     Ok (SoloEngine.mk (YMap (<[k:=v]> m)) (SoloEngine.name eng)
           (SoloEngine.templates eng))).
Proof.
  intros E1 E2 Hb Hs.
  rewrite (from_yaml_map path w1 m E1), (from_yaml_map path w2 _ E2).
  rewrite !lookup_insert_ne by done.
  destruct (m !! "basic_info") as [b|]; [|done].
  destruct (m !! "speech_patterns") as [tp|]; [|done].
  by destruct (subscript b "name").
Qed.

Lemma load_ignores_other_keys_witness :
  (SoloEngine.from_yaml "c.yaml"
     (mkWorld (λ _, Ok (YMap (<["age" := YInt 30]> {[ "basic_info" := YNull ]}))) [])).1
  = Raise ValueError.
Proof.
  exact (load_ignores_other_keys "c.yaml"
           (mkWorld (λ _, Ok (YMap {[ "basic_info" := YNull ]})) [])
           (mkWorld (λ _, Ok (YMap (<["age" := YInt 30]> {[ "basic_info" := YNull ]}))) [])
           {[ "basic_info" := YNull ]} "age" (YInt 30) eq_refl eq_refl
           ltac:(done) ltac:(done)).
Defined.

(** X9.  The exception of a failed load tells what was wrong: the one of
    reading or parsing is passed on; a mapping without one of the two keys
    gives ValueError; a "basic_info" mapping without "name" gives KeyError
    (a LookupError); a "basic_info" that is no mapping, and a file that is
    null, a boolean or a number, give TypeError. *)
Theorem load_error_classes (path : string) (w : world) :
  let r := (SoloEngine.from_yaml path w).1 in
  (∀ e, fs w path = Raise e → r = Raise e)
  ∧ (∀ m, fs w path = Ok (YMap m) →
       m !! "basic_info" = None ∨ m !! "speech_patterns" = None →
       r = Raise ValueError)
  ∧ (∀ m b, fs w path = Ok (YMap m) →
       m !! "basic_info" = Some (YMap b) → is_Some (m !! "speech_patterns") →
       b !! "name" = None → r = Raise LookupError)
  ∧ (∀ m b, fs w path = Ok (YMap m) →
       m !! "basic_info" = Some b → is_Some (m !! "speech_patterns") →
       entries b = None → r = Raise TypeError)
  ∧ (∀ data, fs w path = Ok data →
       data = YNull ∨ (∃ b, data = YBool b) ∨ (∃ z, data = YInt z)
       ∨ (∃ t, data = YOther t) →
       r = Raise TypeError).
Proof.
  intros r. subst r. repeat split.
  - intros e E. by rewrite from_yaml_result, E.
  - intros m E H. rewrite (from_yaml_map path w m E).
    destruct H as [-> | ->]; [done | by destruct (m !! "basic_info")].
  - intros m b E Hb [tp Ht] Hn. rewrite (from_yaml_map path w m E), Hb, Ht.
    cbn [subscript]. by rewrite Hn.
  - intros m b E Hb [tp Ht] Hnm. rewrite (from_yaml_map path w m E), Hb, Ht.
    by rewrite (subscript_not_mapping b "name" Hnm).
  - intros data E H. rewrite from_yaml_result, E.
    by destruct H as [-> | [[b ->] | [[z ->] | [t ->]]]].
Qed.

(** X10.  The loader does not look at what "speech_patterns" holds: when
    it is not a mapping the load still succeeds, and every [respond] of the
    engine raises AttributeError. *)
Theorem unvalidated_templates `{RT : PyRuntime} (path : string) (w : world)
    (m b : gmap string yaml) (nm tp : yaml) :
  fs w path = Ok (YMap m) →
  m !! "basic_info" = Some (YMap b) →
  b !! "name" = Some nm →
  m !! "speech_patterns" = Some tp →
  entries tp = None →
  (SoloEngine.from_yaml path w).1 = Ok (SoloEngine.mk (YMap m) nm tp)
  ∧ ∀ msg now,
      SoloEngine.respond (SoloEngine.mk (YMap m) nm tp) msg now
      = Raise AttributeError.
Proof.
  intros E Hb Hn Ht Hnm. split.
  - rewrite (from_yaml_map path w m E), Hb, Ht. cbn [subscript]. by rewrite Hn.
  - intros msg now. unfold SoloEngine.respond, SoloEngine.select_template.
    cbn [SoloEngine.templates]. by destruct tp.
Qed.

Lemma unvalidated_templates_witness :
  SoloEngine.respond (RT:=Small.runtime)
    (SoloEngine.mk
       (YMap {[ "basic_info" := YMap {[ "name" := YStr "Damian" ]};
                "speech_patterns" := YList [YStr "{msg}"] ]})
       (YStr "Damian") (YList [YStr "{msg}"]))
    "hello" "T"
  = Raise AttributeError.
Proof.
  apply (unvalidated_templates (RT:=Small.runtime) "c.yaml"
           (mkWorld (λ _, Ok (YMap {[ "basic_info" := YMap {[ "name" := YStr "Damian" ]};
                                      "speech_patterns" := YList [YStr "{msg}"] ]})) [])
           _ {[ "name" := YStr "Damian" ]} (YStr "Damian") (YList [YStr "{msg}"]));
    reflexivity.
Defined.

(** ** More on the choice of the template *)

Lemma select_template_map (self : SoloEngine.t) (m : gmap string yaml)
    (mood : string) :
  SoloEngine.templates self = YMap m →
  SoloEngine.select_template self mood
  = Ok (let neutral := match m !! "neutral" with
                       | Some t => t
                       | None => YStr "{msg}"
                       end in
        match m !! mood with
        | Some v => if truthy v then v else neutral
        | None => neutral
        end).
Proof.
  intros Hm. unfold SoloEngine.select_template. rewrite Hm. cbn [dict_get].
  destruct (m !! mood) as [v|]; cbn; [destruct (truthy v)|];
    by destruct (m !! "neutral").
Qed.





Lemma plain_template_default : plain_template "{msg}" = true.
Proof. reflexivity. Qed.


Lemma damian_templates_plain : plain_templates damian_templates.
Proof.
  intros k v. unfold damian_templates.
  rewrite lookup_insert_Some. intros [[<- <-]|[_ H]]; [by eexists|].
  apply lookup_singleton_Some in H as [<- <-]. by eexists.
Qed.


(** ** More on the life of the singleton *)

Lemma from_yaml_reads (path : string) (f : string → result yaml)
    (l1 l2 : list string) :
  (SoloEngine.from_yaml path (mkWorld f l1)).1
  = (SoloEngine.from_yaml path (mkWorld f l2)).1.
Proof. reflexivity. Qed.

(** X14.  A load that fails leaves the singleton unset, so the next
    request reads the file again: a request that arrives when the file is
    bad fails with the loader's exception, and a request that arrives once
    the file is good is answered from the engine loaded then. *)
Theorem failed_load_is_retried `{RT : PyRuntime} (g : globals)
    (f1 f2 : string → result yaml) (n1 n2 : string) (p1 p2 : MessageIn)
    (log : list string) (e : exn) (eng : SoloEngine.t) :
  _engine g = None →
  (SoloEngine.from_yaml (CHAR_YAML_PATH g) (mkWorld f1 log)).1 = Raise e →
  (SoloEngine.from_yaml (CHAR_YAML_PATH g) (mkWorld f2 log)).1 = Ok eng →
  run [mkEvent f1 n1 (POST_respond p1); mkEvent f2 n2 (POST_respond p2)] g log
  = ([Raise e;
      out ← SoloEngine.respond eng (message p2) n2; Ok (ReplyOut out)],
     mkGlobals (CHAR_YAML_PATH g) (Some eng),
     CHAR_YAML_PATH g :: CHAR_YAML_PATH g :: log).
Proof.
  intros Hg H1 H2. cbn [run serve ev_req ev_now ev_fs]. unfold respond.
  rewrite (load_engine_unloaded g _ Hg), H1. cbn [reads mbind result_bind].
  rewrite (load_engine_unloaded g _ Hg).
  rewrite (from_yaml_reads _ f2 _ log), H2. done.
Qed.

Lemma failed_load_is_retried_witness :
  run (RT:=Small.runtime)
    [mkEvent (λ _, Raise OSError) "T1" (POST_respond (mkMessageIn None "hello there"));
     mkEvent (λ _, Ok damian_file) "T2" (POST_respond (mkMessageIn None "hello there"))]
    (mkGlobals "damian_knight_dusk.yaml" None) []
  = ([Raise OSError; Ok (ReplyOut (mkReply "Damian says: hello there" "neutral" "T2"))],
     mkGlobals "damian_knight_dusk.yaml" (Some damian),
     ["damian_knight_dusk.yaml"; "damian_knight_dusk.yaml"]).
Proof.
  exact (failed_load_is_retried (RT:=Small.runtime)
           (mkGlobals "damian_knight_dusk.yaml" None)
           (λ _, Raise OSError) (λ _, Ok damian_file) "T1" "T2"
           (mkMessageIn None "hello there") (mkMessageIn None "hello there")
           [] OSError damian eq_refl eq_refl eq_refl).
Defined.

(** X15.  On a process that has no engine yet, [POST /reset] is not
    without effect: it reads the file; when the load succeeds it installs
    the singleton and answers 204, and when the load fails it fails with
    the loader's exception. *)
Theorem reset_route_loads (g : globals) (w : world) :
  _engine g = None →
  reset g w
  = match (SoloEngine.from_yaml (CHAR_YAML_PATH g) w).1 with
    | Ok eng =>
        (Ok NoContent, mkGlobals (CHAR_YAML_PATH g) (Some eng),
         mkWorld (fs w) (CHAR_YAML_PATH g :: reads w))
    | Raise e => (Raise e, g, mkWorld (fs w) (CHAR_YAML_PATH g :: reads w))
    end.
Proof.
  intros Hg. unfold reset. rewrite (load_engine_unloaded g w Hg).
  by destruct ((SoloEngine.from_yaml (CHAR_YAML_PATH g) w).1).
Qed.

Lemma reset_route_loads_witness :
  reset (mkGlobals "damian_knight_dusk.yaml" None) (mkWorld (λ _, Raise OSError) [])
  = (Raise OSError, mkGlobals "damian_knight_dusk.yaml" None,
     mkWorld (λ _, Raise OSError) ["damian_knight_dusk.yaml"]).
Proof.
  exact (reset_route_loads (mkGlobals "damian_knight_dusk.yaml" None)
           (mkWorld (λ _, Raise OSError) []) eq_refl).
Defined.

Lemma load_engine_step (g g' : globals) (w w' : world) (r : result SoloEngine.t) :
  _load_engine g w = (r, g', w') →
  CHAR_YAML_PATH g' = CHAR_YAML_PATH g
  ∧ fs w' = fs w
  ∧ (reads w' = reads w ∨ reads w' = CHAR_YAML_PATH g :: reads w)
  ∧ (∀ eng, _engine g = Some eng → g' = g ∧ w' = w).
Proof.
  destruct (_engine g) as [eng|] eqn:Eg.
  - rewrite (load_engine_loaded g w eng Eg). intros [= <- <- <-].
    split_and!; try done. by left.
  - rewrite (load_engine_unloaded g w Eg).
    destruct ((SoloEngine.from_yaml (CHAR_YAML_PATH g) w).1) as [eng|e];
      intros [= <- <- <-]; split_and!; try done; by right.
Qed.

Lemma serve_step `{RT : PyRuntime} (req : request) (now : string)
    (g g' : globals) (w w' : world) (r : result response) :
  serve req now g w = (r, g', w') →
  CHAR_YAML_PATH g' = CHAR_YAML_PATH g
  ∧ fs w' = fs w
  ∧ (reads w' = reads w ∨ reads w' = CHAR_YAML_PATH g :: reads w)
  ∧ (∀ eng, _engine g = Some eng → _engine g' = Some eng ∧ reads w' = reads w)
  ∧ (req = GET_health → r = Ok (Status "ok") ∧ g' = g ∧ w' = w).
Proof.
  intros Hs.
  assert (Hh : req = GET_health → r = Ok (Status "ok") ∧ g' = g ∧ w' = w).
  { intros ->. cbn [serve] in Hs. by injection Hs as <- <- <-. }
  revert Hs. destruct (_engine g) as [eng|] eqn:Eg.
  - destruct (serve_loaded g w eng req now Eg) as [r0 ->]. intros [= <- <- <-].
    split_and!; try done; [by left|]. intros ? [= <-]. by split.
  - destruct req as [payload| |]; cbn [serve].
    + unfold respond.
      destruct (_load_engine g w) as [[r0 g0] w0] eqn:El. intros [= <- <- <-].
      destruct (load_engine_step g g0 w w0 r0 El) as (Hp & Hf & Hr & _).
      split_and!; done.
    + rewrite (reset_route_loads g w Eg).
      destruct ((SoloEngine.from_yaml (CHAR_YAML_PATH g) w).1) as [eng|e];
        intros [= <- <- <-]; split_and!; try done; by right.
    + intros [= <- <- <-]. split_and!; try done. by left.
Qed.

(** What [run] keeps. *)
Lemma run_facts `{RT : PyRuntime} (evs : list event) (g g' : globals)
    (log log' : list string) (rs : list (result response)) :
  run evs g log = (rs, g', log') →
  length rs = length evs
  ∧ CHAR_YAML_PATH g' = CHAR_YAML_PATH g
  ∧ (∃ new : list string, log' = (new ++ log)%list
            ∧ Forall (λ p, p = CHAR_YAML_PATH g) new
            ∧ (length new ≤ length evs)%nat)
  ∧ (∀ eng, _engine g = Some eng → _engine g' = Some eng ∧ log' = log).
Proof.
  revert g g' log log' rs.
  induction evs as [|ev evs IH]; intros g g' log log' rs; cbn [run].
  - intros [= <- <- <-]. split_and!; try done. by exists [].
  - destruct (serve (ev_req ev) (ev_now ev) g (mkWorld (ev_fs ev) log))
      as [[r g1] w1] eqn:Es.
    destruct (serve_step _ _ _ _ _ _ _ Es) as (Hp & _ & Hr & Hl & _).
    destruct (run evs g1 (reads w1)) as [[rs1 g2] log2] eqn:Er.
    destruct (IH _ _ _ _ _ Er) as (Hlen & Hp2 & (new & Hlog & Hall & Hn) & Hk).
    intros [= <- <- <-]. cbn [reads] in Hr. split_and!.
    + cbn. by rewrite Hlen.
    + congruence.
    + rewrite Hp in Hall. destruct Hr as [Hr | Hr]; rewrite Hr in Hlog.
      * exists new. split_and!; [done..|cbn; lia].
      * exists (new ++ [CHAR_YAML_PATH g])%list. rewrite <- app_assoc.
        split_and!; [done| |rewrite length_app; cbn; lia].
        apply Forall_app. split; [done | by constructor].
    + intros eng H. destruct (Hl eng H) as [H1 H2], (Hk eng H1) as [H3 H4].
      cbn [reads] in H2. split; congruence.
Qed.

(** X17.  [GET /health] is answered "ok" at every point of every run,
    also when no engine is loaded and the file cannot be read. *)
Theorem health_always_ok `{RT : PyRuntime} (evs : list event) (g : globals)
    (log : list string) (i : nat) (ev : event) :
  evs !! i = Some ev →
  ev_req ev = GET_health →
  (run evs g log).1.1 !! i = Some (Ok (Status "ok")).
Proof.
  revert g log i. induction evs as [|ev0 evs IH]; intros g log i Hi Hreq;
    [done|]. cbn [run].
  destruct (serve (ev_req ev0) (ev_now ev0) g (mkWorld (ev_fs ev0) log))
    as [[r g1] w1] eqn:Es.
  specialize (IH g1 (reads w1)).
  destruct (run evs g1 (reads w1)) as [[rs1 g2] log2].
  destruct i as [|i]; cbn in *.
  - injection Hi as ->.
    destruct (serve_step _ _ _ _ _ _ _ Es) as (_ & _ & _ & _ & Hh).
    by destruct (Hh Hreq) as [-> _].
  - by apply IH.
Qed.

Lemma health_always_ok_witness :
  (run (RT:=Small.runtime)
     [mkEvent (λ _, Raise OSError) "T1" POST_reset;
      mkEvent (λ _, Raise OSError) "T2" GET_health]
     (mkGlobals "damian_knight_dusk.yaml" None) []).1.1 !! 1
  = Some (Ok (Status "ok")).
Proof.
  exact (health_always_ok (RT:=Small.runtime)
           [mkEvent (λ _, Raise OSError) "T1" POST_reset;
            mkEvent (λ _, Raise OSError) "T2" GET_health]
           (mkGlobals "damian_knight_dusk.yaml" None) [] 1
           (mkEvent (λ _, Raise OSError) "T2" GET_health) eq_refl eq_refl).
Defined.

Lemma run_reads_once `{RT : PyRuntime} (ev : event) (evs : list event)
    (g : globals) (log : list string) (eng : SoloEngine.t) :
  _engine g = None →
  ev_req ev ≠ GET_health →
  (SoloEngine.from_yaml (CHAR_YAML_PATH g) (mkWorld (ev_fs ev) log)).1 = Ok eng →
  ∃ rs, run (ev :: evs) g log
        = (rs, mkGlobals (CHAR_YAML_PATH g) (Some eng), CHAR_YAML_PATH g :: log).
Proof.
  intros Hg Hreq Hload. cbn [run].
  assert (Hs : ∃ r, serve (ev_req ev) (ev_now ev) g (mkWorld (ev_fs ev) log)
                    = (r, mkGlobals (CHAR_YAML_PATH g) (Some eng),
                       mkWorld (ev_fs ev) (CHAR_YAML_PATH g :: log))).
  { destruct (ev_req ev) as [payload| |]; [| |done]; cbn [serve].
    - unfold respond. rewrite (load_engine_unloaded g _ Hg), Hload. by eexists.
    - rewrite (reset_route_loads g _ Hg), Hload. by eexists. }
  destruct Hs as [r ->]. cbn [reads].
  destruct (run_loaded evs (mkGlobals (CHAR_YAML_PATH g) (Some eng)) eng
              (CHAR_YAML_PATH g :: log) eq_refl) as [rs ->].
  by eexists.
Qed.

Lemma py_in_list_spec (key : string) (l : list yaml) :
  py_in key (YList l) = Ok true ↔ YStr key ∈ l.
Proof.
  cbn [py_in]. split.
  - intros [= H]. apply existsb_exists in H as (v & Hin & Hv).
    destruct v; try done. apply String.eqb_eq in Hv as ->.
    by apply list_elem_of_In.
  - intros Hin. f_equal. apply existsb_exists. exists (YStr key).
    split; [by apply list_elem_of_In | by apply String.eqb_eq].
Qed.

Lemma py_in_str_spec (key s : string) :
  py_in key (YStr s) = Ok true ↔ occurs key s.
Proof.
  cbn [py_in]. rewrite <- contains_spec. split; [by intros [= ->] | by intros ->].
Qed.

Lemma load_sequence (data : yaml) (P1 P2 : Prop) :
  entries data = None →
  (∃ b, py_in "basic_info" data = Ok b) →
  (∃ b, py_in "speech_patterns" data = Ok b) →
  (py_in "basic_info" data = Ok true ↔ P1) →
  (py_in "speech_patterns" data = Ok true ↔ P2) →
  (P1 ∧ P2 →
   (_ ← SoloEngine.require_key data "basic_info";
    _ ← SoloEngine.require_key data "speech_patterns";
    SoloEngine.__init__ data) = Raise TypeError)
  ∧ (¬ (P1 ∧ P2) →
     (_ ← SoloEngine.require_key data "basic_info";
      _ ← SoloEngine.require_key data "speech_patterns";
      SoloEngine.__init__ data) = Raise ValueError).
Proof.
  intros Hnm [b1 H1] [b2 H2] HP1 HP2. unfold SoloEngine.require_key.
  rewrite H1, H2. cbn [mbind result_bind].
  assert (Hinit : SoloEngine.__init__ data = Raise TypeError)
    by (by apply init_not_map).
  rewrite H1 in HP1. rewrite H2 in HP2.
  destruct b1, b2; cbn; (split; [intros [Q1 Q2] | intros HQ]); try done.
  - destruct HQ. split; [by apply HP1 | by apply HP2].
  - by apply HP2 in Q2.
  - by apply HP1 in Q1.
  - by apply HP1 in Q1.
Qed.

(** X19.  A file that holds a string or a list is checked with [in] like
    a mapping: when both key names occur in the string, or are elements of
    the list, the check passes and the construction of the engine raises
    TypeError; otherwise the check raises ValueError. *)
Theorem non_mapping_file_fails (path : string) (w : world) :
  let r := (SoloEngine.from_yaml path w).1 in
  (∀ s, fs w path = Ok (YStr s) →
     (occurs "basic_info" s ∧ occurs "speech_patterns" s → r = Raise TypeError)
     ∧ (¬ (occurs "basic_info" s ∧ occurs "speech_patterns" s) →
        r = Raise ValueError))
  ∧ (∀ l, fs w path = Ok (YList l) →
       (YStr "basic_info" ∈ l ∧ YStr "speech_patterns" ∈ l → r = Raise TypeError)
       ∧ (¬ (YStr "basic_info" ∈ l ∧ YStr "speech_patterns" ∈ l) →
          r = Raise ValueError)).
Proof.
  intros r. subst r. rewrite from_yaml_result. split.
  - intros s ->. cbn [mbind result_bind].
    apply load_sequence; [done|by eexists|by eexists|apply py_in_str_spec..].
  - intros l ->. cbn [mbind result_bind].
    apply load_sequence; [done|by eexists|by eexists|apply py_in_list_spec..].
Qed.

(** ** Requests that overlap *)

Lemma may_read_count_insert (ts : list thread) (i : nat) (t t' : thread) :
  ts !! i = Some t →
  (may_read_count (<[i := t']> ts) + may_read t
   = may_read_count ts + may_read t')%nat.
Proof.
  unfold may_read_count.
  revert i. induction ts as [|t0 ts IH]; intros i Hi; [done|].
  destruct i as [|i]; simpl in *.
  - injection Hi as ->. lia.
  - specialize (IH i Hi). lia.
Qed.

Lemma may_read_count_length (ts : list thread) :
  (may_read_count ts ≤ length ts)%nat.
Proof.
  unfold may_read_count. induction ts as [|t ts IH]; cbn; [lia|].
  unfold may_read at 1. destruct (th_pc t); lia.
Qed.

Lemma step_thread_inv `{RT : PyRuntime} (files : string → result yaml)
    (g g' : globals) (log log' : list string) (t t' : thread) :
  step_thread files g log t = (g', log', t') →
  CHAR_YAML_PATH g' = CHAR_YAML_PATH g
  ∧ (is_Some (_engine g) → is_Some (_engine g'))
  ∧ th_req t' = th_req t
  ∧ th_now t' = th_now t
  ∧ (∀ r, th_pc t = Finished r → t' = t)
  ∧ ∃ new : list string,
      log' = (new ++ log)%list
      ∧ Forall (λ p, p = CHAR_YAML_PATH g) new
      ∧ (length new + may_read t' ≤ may_read t)%nat.
Proof.
  unfold step_thread, may_read. destruct t as [req now p]. cbn [th_pc th_req th_now].
  assert (Hnone : ∀ g0 (p0 : pc),
            (0 + match p0 with AtCheck | AtLoad => 1 | _ => 0 end
             ≤ match p with AtCheck | AtLoad => 1 | _ => 0 end)%nat →
            (∀ r, p = Finished r → p0 = p) →
            CHAR_YAML_PATH g0 = CHAR_YAML_PATH g →
            (is_Some (_engine g) → is_Some (_engine g0)) →
            (g0, log, mkThread req now p0) = (g', log', t') →
            CHAR_YAML_PATH g' = CHAR_YAML_PATH g
            ∧ (is_Some (_engine g) → is_Some (_engine g'))
            ∧ th_req t' = req ∧ th_now t' = now
            ∧ (∀ r, p = Finished r → t' = mkThread req now p)
            ∧ ∃ new : list string,
                log' = (new ++ log)%list
                ∧ Forall (λ x, x = CHAR_YAML_PATH g) new
                ∧ (length new + match th_pc t' with AtCheck | AtLoad => 1 | _ => 0 end
                   ≤ match p with AtCheck | AtLoad => 1 | _ => 0 end)%nat).
  { intros g0 p0 Hle Hfin Hpath Heng [= <- <- <-].
    split_and!; try done.
    - intros r Hr. by rewrite (Hfin r Hr).
    - exists []. by split_and!. }
  unfold at_pc. cbn [th_req th_now].
  destruct p as [| |eng| |r].
  - destruct req as [payload| |]; [destruct (_engine g) eqn:Eg..|];
      apply Hnone; try done; cbn; try lia; by rewrite ?Eg.
  - change (SoloEngine.from_yaml (CHAR_YAML_PATH g) (mkWorld files log))
      with ((SoloEngine.from_yaml (CHAR_YAML_PATH g) (mkWorld files log)).1,
            mkWorld files (CHAR_YAML_PATH g :: log)).
    destruct ((SoloEngine.from_yaml (CHAR_YAML_PATH g) (mkWorld files log)).1);
      intros [= <- <- <-]; split_and!; try done;
      exists [CHAR_YAML_PATH g]; cbn; split_and!; try done;
      by repeat constructor.
  - apply Hnone; try done; cbn; try lia; try (intros _; by eexists).
  - unfold route_body, SoloEngine.reset. cbn [th_req th_now].
    destruct (_engine g) as [eng|] eqn:Eg.
    + destruct req as [payload| |]; apply Hnone; try done; cbn; try lia;
        try (by rewrite Eg); try (intros _; by eexists).
    + apply Hnone; try done; cbn; try lia; try (by rewrite Eg).
  - apply Hnone; try done; cbn; try lia.
Qed.


Lemma pool_invariant_refl (p : process) : pool_invariant p p.
Proof.
  unfold pool_invariant. split_and!; try done.
  - by apply Forall_Forall2_diag, Forall_forall.
  - exists []. split_and!; [done | done | cbn; lia].
Qed.

Lemma pool_invariant_trans (p1 p2 p3 : process) :
  pool_invariant p1 p2 → pool_invariant p2 p3 → pool_invariant p1 p3.
Proof.
  intros (Hp1 & He1 & Ht1 & new1 & Hr1 & Hn1 & Hc1)
         (Hp2 & He2 & Ht2 & new2 & Hr2 & Hn2 & Hc2).
  unfold pool_invariant. split_and!.
  - congruence.
  - auto.
  - clear -Ht1 Ht2. revert Ht2. generalize (pr_threads p3).
    induction Ht1 as [|t1 t2 l1 l2 (Hq & Hw & Hf) _ IH]; intros l3 Ht2.
    + by inversion Ht2.
    + inversion Ht2 as [|? t3 ? l3' (Hq' & Hw' & Hf') Hrest]; subst.
      constructor; [|by apply IH]. split_and!; [congruence..|].
      intros r Hr. pose proof (Hf r Hr) as ->. by apply (Hf' r).
  - exists (new2 ++ new1)%list. split_and!.
    + by rewrite Hr2, Hr1, app_assoc.
    + apply Forall_app. split; [|done]. by rewrite <- Hp1.
    + rewrite length_app. lia.
Qed.

Lemma pool_invariant_step `{RT : PyRuntime} (p : process)
    (move : nat * (string → result yaml)) :
  pool_invariant p (exec_step p move).
Proof.
  destruct move as [i files]. unfold exec_step. cbn [fst snd].
  destruct (pr_threads p !! i) as [t|] eqn:Ei; [|apply pool_invariant_refl].
  destruct (step_thread files (pr_globals p) (pr_reads p) t)
    as [[g log] t'] eqn:Es.
  destruct (step_thread_inv _ _ _ _ _ _ _ Es)
    as (Hp & He & Hq & Hw & Hf & new & -> & Hn & Hc).
  unfold pool_invariant. cbn [pr_globals pr_reads pr_threads]. split_and!; try done.
  - rewrite <- (list_insert_id (pr_threads p) i t Ei) at 1.
    apply Forall2_insert; [|done].
    by apply Forall_Forall2_diag, Forall_forall.
  - exists new. split_and!; try done.
    pose proof (may_read_count_insert (pr_threads p) i t t' Ei). lia.
Qed.

(** X20.  However the steps of overlapping requests alternate and
    whatever the files become: the configured path never changes; every
    read is a read of that path, and each request reads the file at most
    once; an engine, once installed, is never removed (the load of an
    overlapping request may replace it); and a request keeps its route,
    its clock reading and, once finished, its outcome. *)
Theorem pool_invariants `{RT : PyRuntime}
    (schedule : list (nat * (string → result yaml))) (p : process) :
  pool_invariant p (exec schedule p)
  ∧ ∃ new : list string,
      pr_reads (exec schedule p) = (new ++ pr_reads p)%list
      ∧ (length new ≤ length (pr_threads p))%nat.
Proof.
  assert (H : pool_invariant p (exec schedule p)).
  { revert p. induction schedule as [|move schedule IH]; intros p.
    - apply pool_invariant_refl.
    - apply (pool_invariant_trans _ (exec_step p move)); [|apply IH].
      apply pool_invariant_step. }
  split; [done|].
  destruct H as (_ & _ & _ & new & Hr & _ & Hc). exists new. split; [done|].
  pose proof (may_read_count_length (pr_threads p)). lia.
Qed.

(** ** Requests served one after another *)

Lemma one_by_one_is_run `{RT : PyRuntime} (evs : list event) (g : globals)
    (log : list string) :
  exec (one_by_one 0 evs) (mkProcess g log (map thread_of evs))
  = let '(rs, g', log') := run evs g log in
    mkProcess g' log' (zip_with finished_thread evs rs).
Proof. exact (run_is_one_by_one evs [] g log). Qed.

(** X16.  When the requests are served one after another, each thread
    taking all its steps before the next one moves: every request finishes
    with one outcome; the configured path never changes; every read is a
    read of that path and there is at most one per request; and when an
    engine is loaded at the start it stays, and the file is not read. *)
Theorem one_by_one_invariants `{RT : PyRuntime} (evs : list event)
    (g : globals) (log : list string) :
  let p := exec (one_by_one 0 evs) (mkProcess g log (map thread_of evs)) in
  (∃ rs, pr_threads p = zip_with finished_thread evs rs
         ∧ length rs = length evs)
  ∧ CHAR_YAML_PATH (pr_globals p) = CHAR_YAML_PATH g
  ∧ (∃ new : list string,
       pr_reads p = (new ++ log)%list
       ∧ Forall (λ x, x = CHAR_YAML_PATH g) new
       ∧ (length new ≤ length evs)%nat)
  ∧ (∀ eng, _engine g = Some eng →
       _engine (pr_globals p) = Some eng ∧ pr_reads p = log).
Proof.
  intros p. subst p. rewrite one_by_one_is_run.
  destruct (run evs g log) as [[rs g'] log'] eqn:Er.
  destruct (run_facts evs g g' log log' rs Er) as (Hlen & Hp & Hnew & Hk).
  cbn [pr_threads pr_globals pr_reads]. split_and!; try done. by exists rs.
Qed.

(** X18.  When the requests are served one after another, the file is
    read once: if the first request needs the engine and finds a file that
    loads, the engine of that file is the singleton at the end and the
    file has been read that one time, however many requests follow and
    whatever the file becomes. *)
Theorem file_is_read_once `{RT : PyRuntime} (ev : event) (evs : list event)
    (g : globals) (log : list string) (eng : SoloEngine.t) :
  _engine g = None →
  ev_req ev ≠ GET_health →
  (SoloEngine.from_yaml (CHAR_YAML_PATH g) (mkWorld (ev_fs ev) log)).1 = Ok eng →
  let p := exec (one_by_one 0 (ev :: evs))
             (mkProcess g log (map thread_of (ev :: evs))) in
  pr_globals p = mkGlobals (CHAR_YAML_PATH g) (Some eng)
  ∧ pr_reads p = CHAR_YAML_PATH g :: log.
Proof.
  intros Hg Hreq Hload p. subst p. rewrite one_by_one_is_run.
  destruct (run_reads_once ev evs g log eng Hg Hreq Hload) as [rs ->]. done.
Qed.

Lemma file_is_read_once_witness :
  let evs := [mkEvent (λ _, Ok damian_file) "T1" POST_reset;
              mkEvent (λ _, Raise OSError) "T2" (POST_respond (mkMessageIn None "hi"))] in
  let p := exec (RT:=Small.runtime) (one_by_one 0 evs)
             (mkProcess (mkGlobals "damian_knight_dusk.yaml" None) []
                (map thread_of evs)) in
  pr_globals p = mkGlobals "damian_knight_dusk.yaml" (Some damian)
  ∧ pr_reads p = ["damian_knight_dusk.yaml"].
Proof.
  apply (file_is_read_once (RT:=Small.runtime)
           (mkEvent (λ _, Ok damian_file) "T1" POST_reset)
           [mkEvent (λ _, Raise OSError) "T2" (POST_respond (mkMessageIn None "hi"))]
           (mkGlobals "damian_knight_dusk.yaml" None) [] damian); done.
Defined.
